(** * Job lifecycle and progress distribution of the commute planner

    A shallow embedding of the job store (Go backend, PostgreSQL table
    [jobs]), of the dispatch queue and progress relay (Redis, used by the
    Go backend and by the TypeScript gateway) and of the gateway's GraphQL
    resolvers, with the properties of the subsystem stated and proved
    against it.

    Conventions.
    - Go's [(T, error)] and a TypeScript promise are both a [result].
    - What the outside world decides during one call (the identifier drawn
      by [uuid.New()], the clock, whether a connection works) is an explicit
      argument of the call.
    - The input functions of PostgreSQL's column types are parameters,
      except those of the enum [job_status] and of [UUID], whose texts
      the properties depend on: they are written out.
    - A [float64] / JS number is a rational [Q]; the code only stores and
      copies these numbers.
    - A JSON text on the wire is the [json] value it denotes, with the keys
      of an object in the order they are written. *)

From Stdlib Require Import QArith Ascii.
From Stdlib.Strings Require Import Byte.
From stdpp Require Import gmap strings list sorting.

Close Scope Q_scope.
Open Scope string_scope.
Set Warnings "-register-all".

(** ** Results and JSON values *)

Inductive result (E A : Type) : Type :=
| Ok (a : A)
| Err (e : E).
Arguments Ok {E A} a.
Arguments Err {E A} e.

Definition is_Ok {E A} (r : result E A) : bool :=
  match r with Ok _ => true | Err _ => false end.

Inductive json : Type :=
| JNull
| JBool (b : bool)
| JNumber (q : Q)
| JString (s : string)
| JArray (l : list json)
| JObject (fields : list (string * json)).

(** The keys of a JSON object, in the order written; [None] for a value
    that is not an object. *)
Definition json_keys (j : json) : option (list string) :=
  match j with
  | JObject fields => Some (fst <$> fields)
  | _ => None
  end.

(** [m[k]] on a decoded JSON object (Go [map[string]interface{}], a JS
    object): absent keys give [None]; of a key written twice the later
    value counts. *)
Fixpoint json_get (k : string) (fields : list (string * json)) : option json :=
  match fields with
  | [] => None
  | (k', v) :: rest =>
      match json_get k rest with
      | Some v' => Some v'
      | None => if decide (k' = k) then Some v else None
      end
  end.

(** ** UUID values and their text (PostgreSQL's type [uuid], Go's
    [uuid.UUID]) *)

Module UUID.

(** A UUID is 16 bytes. *)
Record t : Type := mk {
  b0 : byte; b1 : byte; b2 : byte; b3 : byte;
  b4 : byte; b5 : byte; b6 : byte; b7 : byte;
  b8 : byte; b9 : byte; b10 : byte; b11 : byte;
  b12 : byte; b13 : byte; b14 : byte; b15 : byte;
}.

(** The value of a hexadecimal digit in either case ([isxdigit],
    [strtoul]). *)
Definition hex_value (c : ascii) : option N :=
  let n := N_of_ascii c in
  if (48 <=? n)%N && (n <=? 57)%N then Some (n - 48)%N
  else if (97 <=? n)%N && (n <=? 102)%N then Some (n - 87)%N
  else if (65 <=? n)%N && (n <=? 70)%N then Some (n - 55)%N
  else None.

(** The digits [0123456789abcdef]. *)
Definition hex_char (n : N) : ascii :=
  if (n <? 10)%N then ascii_of_N (48 + n) else ascii_of_N (87 + n).

(** Two hexadecimal digits at the head of a text: the byte and the
    rest. *)
Definition hex2 (s : string) : option (byte * string) :=
  match s with
  | String c1 (String c2 rest) =>
      match hex_value c1, hex_value c2 with
      | Some h, Some l => (λ b, (b, rest)) <$> Byte.of_N (16 * h + l)
      | _, _ => None
      end
  | _ => None
  end.

(** One hyphen at the head of a text, if there is one, is skipped. *)
Definition hyphen (s : string) : string :=
  match s with
  | String c rest => if decide (c = "-"%char) then rest else s
  | EmptyString => s
  end.

(** The loop of the input function: [n] more bytes from byte [i] on; a
    hyphen may follow a byte of odd index other than the last. *)
Fixpoint bytes (i n : nat) (s : string) : option (list byte * string) :=
  match n with
  | 0 => Some ([], s)
  | S n' =>
      match hex2 s with
      | None => None
      | Some (b, s1) =>
          let s2 := if Nat.odd i && (i <? 15)%nat then hyphen s1 else s1 in
          match bytes (S i) n' s2 with
          | None => None
          | Some (bs, s3) => Some (b :: bs, s3)
          end
      end
  end.

Definition open_brace (s : string) : bool * string :=
  match s with
  | String c rest => if decide (c = "{"%char) then (true, rest) else (false, s)
  | EmptyString => (false, s)
  end.

(** [uuid_in], the input function of the type: 32 hexadecimal digits in
    either case, with an optional hyphen after any group of four digits
    and optional braces around the whole; [None] is the error [invalid
    input syntax for type uuid]. *)
Definition uuid_in (s : string) : option t :=
  let '(braces, src) := open_brace s in
  match bytes 0 16 src with
  | Some ([a0; a1; a2; a3; a4; a5; a6; a7; a8; a9; a10; a11; a12; a13; a14; a15],
          rest) =>
      if decide (rest = if braces then "}" else EmptyString)
      then Some (mk a0 a1 a2 a3 a4 a5 a6 a7 a8 a9 a10 a11 a12 a13 a14 a15)
      else None
  | _ => None
  end.

(** A byte as two lower-case digits, before the rest of a text. *)
Definition digits (b : byte) (rest : string) : string :=
  String (hex_char (Byte.to_N b / 16))
    (String (hex_char (Byte.to_N b mod 16)) rest).

(** [uuid_out], the output function of the type, which is also the text
    [String()] of Go's [uuid.UUID] gives: lower-case digits in groups of
    8, 4, 4, 4 and 12. *)
Definition uuid_out (u : t) : string :=
  digits (b0 u) (digits (b1 u) (digits (b2 u) (digits (b3 u) (String "-"
  (digits (b4 u) (digits (b5 u) (String "-"
  (digits (b6 u) (digits (b7 u) (String "-"
  (digits (b8 u) (digits (b9 u) (String "-"
  (digits (b10 u) (digits (b11 u) (digits (b12 u) (digits (b13 u)
  (digits (b14 u) (digits (b15 u) EmptyString))))))))))))))))))).

(** A text argument for a [UUID] column as the driver reads the value
    back; [None] where the database rejects the text. *)
Definition cast (s : string) : option string := uuid_out <$> uuid_in s.

End UUID.

(** ** The job store: table [jobs] and the resolvers over it
    (database/migrations/001_initial_setup.sql, pkg/resolvers/resolver.go) *)

Module JobStore.

(** [CREATE TYPE job_status AS ENUM (...)], [models.JobStatus]. *)
Inductive JobStatus : Type := PENDING | IN_PROGRESS | COMPLETED | FAILED.

#[global] Instance JobStatus_eq_dec : EqDecision JobStatus.
Proof. solve_decision. Defined.

Definition JobStatus_label (s : JobStatus) : string :=
  match s with
  | PENDING => "PENDING"
  | IN_PROGRESS => "IN_PROGRESS"
  | COMPLETED => "COMPLETED"
  | FAILED => "FAILED"
  end.

(** Input function of the enum: a text that is not one of the four labels
    is rejected by the database. *)
Definition job_status_in (s : string) : option JobStatus :=
  if decide (s = "PENDING") then Some PENDING
  else if decide (s = "IN_PROGRESS") then Some IN_PROGRESS
  else if decide (s = "COMPLETED") then Some COMPLETED
  else if decide (s = "FAILED") then Some FAILED
  else None.

(** [COMPLETED] and [FAILED] are the terminal states. *)
Definition is_terminal (s : JobStatus) : bool :=
  match s with
  | COMPLETED | FAILED => true
  | PENDING | IN_PROGRESS => false
  end.

(** [models.Job]: one row of [jobs] as the resolvers scan it. *)
Record Job : Type := mkJob {
  ID : string;
  UserID : string;
  Status : JobStatus;
  Progress : Q;
  CurrentStep : option string;
  TargetDate : string;
  InputData : option string;
  Result : option string;
  ErrorMessage : option string;
  CreatedAt : Z;
  UpdatedAt : Z;
}.

(** The database: the ids of table [users] (target of the foreign key of
    [jobs.user_id]) and table [jobs] keyed by its primary key. Both
    columns are of type [UUID]; a value is written as the text the driver
    reads it back as. *)
Record DB : Type := mkDB {
  users : gset string;
  jobs : gmap string Job;
}.

Inductive sql_error : Type :=
| ErrNoRows
| PqError (msg : string).

Record CreateJobInput : Type := mkCreateJobInput {
  ci_UserID : string;
  ci_TargetDate : string;
  ci_InputData : option string;
}.

Record UpdateJobInput : Type := mkUpdateJobInput {
  ui_Status : option string;
  ui_Progress : option Q;
  ui_CurrentStep : option string;
  ui_Result : option string;
  ui_ErrorMessage : option string;
}.

(** One [, column = $n] item of the [UPDATE] statement built by
    [UpdateJob], with its argument. *)
Inductive assignment : Type :=
| set_status (v : string)
| set_progress (v : Q)
| set_current_step (v : string)
| set_result (v : string)
| set_error_message (v : string).

Section Resolvers.

(** Input functions of the column types [DATE], [JSONB],
    [VARCHAR(255)] and [TEXT]: PostgreSQL's own, not part of the
    repository. They return the text the driver reads back, or [None]
    where the database rejects the value. *)
Variable date_in : string → option string.
Variable jsonb_in : string → option string.
Variable varchar255_in : string → option string.
Variable text_in : string → option string.

(** [INSERT INTO jobs (id, user_id, status, progress, target_date,
    input_data, created_at, updated_at) VALUES (...) RETURNING ...]:
    the arguments are cast to their column types, [target_date] is
    [NOT NULL], [id] is the primary key and [user_id] references [users].
    The columns not listed get their defaults ([NULL]). *)
Definition insert_job (db : DB) (id user_id : string) (status : JobStatus)
    (progress : Q) (target_date : string) (input_data : option string)
    (created_at updated_at : Z) : result sql_error (Job * DB) :=
  match UUID.cast id, UUID.cast user_id with
  | None, _ | _, None => Err (PqError "invalid input syntax for type uuid")
  | Some id, Some user_id =>
    match date_in target_date with
    | None => Err (PqError "invalid input syntax for type date")
    | Some d =>
      match (match input_data with
             | None => Some None
             | Some s => Some <$> jsonb_in s
             end) with
      | None => Err (PqError "invalid input syntax for type json")
      | Some data =>
        match jobs db !! id with
        | Some _ => Err (PqError "duplicate key value violates unique constraint jobs_pkey")
        | None =>
          if decide (user_id ∈ users db) then
            let job := {| ID := id; UserID := user_id; Status := status;
                          Progress := progress; CurrentStep := None;
                          TargetDate := d; InputData := data; Result := None;
                          ErrorMessage := None; CreatedAt := created_at;
                          UpdatedAt := updated_at |} in
            Ok (job, {| users := users db; jobs := <[id := job]> (jobs db) |})
          else Err (PqError "insert on table jobs violates foreign key constraint jobs_user_id_fkey")
        end
      end
    end
  end.

(** [func (r *Resolver) CreateJob]. [uuid_New] is the value of
    [uuid.New()] and [now] that of [time.Now()] for this call. *)
Definition CreateJob (uuid_New : UUID.t) (now : Z) (db : DB)
    (input : CreateJobInput) : result string Job * DB :=
  let id := UUID.uuid_out uuid_New in
  let inputDataJSON :=
    match ci_InputData input with
    | Some s => if decide (s ≠ EmptyString) then Some s else None
    | None => None
    end in
  match insert_job db id (ci_UserID input) PENDING 0 (ci_TargetDate input)
                   inputDataJSON now now with
  | Err ErrNoRows => (Err ("error creating job: " ++ "sql: no rows in result set"), db)
  | Err (PqError msg) => (Err ("error creating job: " ++ msg), db)
  | Ok (job, db') => (Ok job, db')
  end.

(** The argument of a [SET] item as the database reads it for the
    column. *)
Inductive setting : Type :=
| to_status (s : JobStatus)
| to_progress (v : Q)
| to_current_step (s : string)
| to_result (s : string)
| to_error_message (s : string).

(** Binding the argument of one [SET] item: [None] when the database
    rejects the value for the column. This happens before any row is
    looked at. *)
Definition bind (a : assignment) : option setting :=
  match a with
  | set_status v => to_status <$> job_status_in v
  | set_progress v => Some (to_progress v)
  | set_current_step v => to_current_step <$> varchar255_in v
  | set_result v => to_result <$> jsonb_in v
  | set_error_message v => to_error_message <$> text_in v
  end.

Definition bind_all (sets : list assignment) : option (list setting) :=
  mapM bind sets.

(** The effect of one [SET] item on a row. *)
Definition assign (a : setting) (row : Job) : Job :=
  match a with
  | to_status s =>
      {| ID := ID row; UserID := UserID row; Status := s;
         Progress := Progress row; CurrentStep := CurrentStep row;
         TargetDate := TargetDate row; InputData := InputData row;
         Result := Result row; ErrorMessage := ErrorMessage row;
         CreatedAt := CreatedAt row; UpdatedAt := UpdatedAt row |}
  | to_progress v =>
      {| ID := ID row; UserID := UserID row; Status := Status row;
         Progress := v; CurrentStep := CurrentStep row;
         TargetDate := TargetDate row; InputData := InputData row;
         Result := Result row; ErrorMessage := ErrorMessage row;
         CreatedAt := CreatedAt row; UpdatedAt := UpdatedAt row |}
  | to_current_step s =>
      {| ID := ID row; UserID := UserID row; Status := Status row;
         Progress := Progress row; CurrentStep := Some s;
         TargetDate := TargetDate row; InputData := InputData row;
         Result := Result row; ErrorMessage := ErrorMessage row;
         CreatedAt := CreatedAt row; UpdatedAt := UpdatedAt row |}
  | to_result s =>
      {| ID := ID row; UserID := UserID row; Status := Status row;
         Progress := Progress row; CurrentStep := CurrentStep row;
         TargetDate := TargetDate row; InputData := InputData row;
         Result := Some s; ErrorMessage := ErrorMessage row;
         CreatedAt := CreatedAt row; UpdatedAt := UpdatedAt row |}
  | to_error_message s =>
      {| ID := ID row; UserID := UserID row; Status := Status row;
         Progress := Progress row; CurrentStep := CurrentStep row;
         TargetDate := TargetDate row; InputData := InputData row;
         Result := Result row; ErrorMessage := Some s;
         CreatedAt := CreatedAt row; UpdatedAt := UpdatedAt row |}
  end.

Definition assign_all (sets : list setting) (row : Job) : Job :=
  foldl (λ row a, assign a row) row sets.

Definition touch (now : Z) (row : Job) : Job :=
  {| ID := ID row; UserID := UserID row; Status := Status row;
     Progress := Progress row; CurrentStep := CurrentStep row;
     TargetDate := TargetDate row; InputData := InputData row;
     Result := Result row; ErrorMessage := ErrorMessage row;
     CreatedAt := CreatedAt row; UpdatedAt := now |}.

(** [UPDATE jobs SET updated_at = NOW() <sets> WHERE id = $n RETURNING ...]
    read with [QueryRow(...).Scan]. The arguments are bound first, the
    values of the [SET] items and then the id: a value or an id the
    database rejects aborts the statement, whether or not a row matches.
    No row with that id is [sql.ErrNoRows]. The [BEFORE UPDATE] trigger
    of the table sets [updated_at] to [NOW()] as well. *)
Definition update_job (now : Z) (db : DB) (sets : list assignment)
    (id : string) : result sql_error (Job * DB) :=
  match bind_all sets with
  | None => Err (PqError "invalid input value")
  | Some values =>
    match UUID.cast id with
    | None => Err (PqError "invalid input syntax for type uuid")
    | Some id =>
      match jobs db !! id with
      | None => Err ErrNoRows
      | Some row =>
          let row' := assign_all values (touch now row) in
          Ok (row', {| users := users db; jobs := <[id := row']> (jobs db) |})
      end
    end
  end.

(** The [if input.X != nil { query += ...; args = append(args, *input.X) }]
    blocks of [UpdateJob], in their order. *)
Definition update_sets (input : UpdateJobInput) : list assignment :=
  (match ui_Status input with Some v => [set_status v] | None => [] end) ++
  (match ui_Progress input with Some v => [set_progress v] | None => [] end) ++
  (match ui_CurrentStep input with Some v => [set_current_step v] | None => [] end) ++
  (match ui_Result input with Some v => [set_result v] | None => [] end) ++
  (match ui_ErrorMessage input with Some v => [set_error_message v] | None => [] end).

(** [func (r *Resolver) UpdateJob]; [now] is the database's [NOW()]. *)
Definition UpdateJob (now : Z) (db : DB) (id : string)
    (input : UpdateJobInput) : result string Job * DB :=
  match update_job now db (update_sets input) id with
  | Err ErrNoRows => (Err "job not found", db)
  | Err (PqError msg) => (Err ("error updating job: " ++ msg), db)
  | Ok (job, db') => (Ok job, db')
  end.

(** [func (r *Resolver) Job]: [SELECT ... FROM jobs WHERE id = $1]; an
    id the database rejects is an error of the query. *)
Definition GetJob (db : DB) (id : string) : result string Job :=
  match UUID.cast id with
  | None => Err ("error fetching job: " ++ "invalid input syntax for type uuid")
  | Some id =>
    match jobs db !! id with
    | None => Err "job not found"
    | Some row => Ok row
    end
  end.

End Resolvers.

End JobStore.

(** ** The Redis server shared by both services *)

Module Redis.

(** The lists of the server by key; a missing key is the empty list. *)
Definition list_at (key : string) (r : gmap string (list json)) : list json :=
  default [] (r !! key).

(** [LPUSH key v]: the value becomes the head of the list. *)
Definition LPUSH (key : string) (v : json) (r : gmap string (list json))
    : gmap string (list json) :=
  <[key := v :: list_at key r]> r.

(** [LLEN key]. *)
Definition LLEN (key : string) (r : gmap string (list json)) : nat :=
  length (list_at key r).

(** How often a descriptor for job [id] occurs in a list: the elements
    that are objects whose [job_id] is the string [id]. *)
Definition is_descriptor_of (id : string) (v : json) : bool :=
  match v with
  | JObject fields =>
      match json_get "job_id" fields with
      | Some (JString s) => bool_decide (s = id)
      | _ => false
      end
  | _ => false
  end.

Definition descriptors_of (id : string) (l : list json) : nat :=
  length (filter (λ v, is_descriptor_of id v = true) l).

End Redis.

(** ** The backend: Redis client (pkg/redis), [QueueJob] and the
    createJob branch of the [/graphql] handler (cmd/main.go) *)

Module Backend.

Import JobStore.

(** A Go call either returns or panics (a failed type assertion
    [x.(string)]). *)
Inductive outcome (A : Type) : Type :=
| Returned (a : A)
| Panicked.
Arguments Returned {A} a.
Arguments Panicked {A}.

(** [type Client struct { client *redis.Client }]: the go-redis client for
    an address, or [nil]. *)
Record Client : Type := mkClient { client : option string }.

Definition NewClient (addr : string) : Client := {| client := Some addr |}.

(** [redisClient := redis.NewClient("redis:6379")] of [main]. *)
Definition redisClient : Client := NewClient "redis:6379".

(** [type JobMessage struct] with its [json] tags. *)
Record JobMessage : Type := mkJobMessage {
  jm_JobID : string;
  jm_UserID : string;
  jm_TargetDate : string;
  jm_InputData : option string;
}.

(** [json.Marshal(jobMessage)]: the fields in declaration order;
    [input_data] has [omitempty] and is left out for a [nil] pointer. *)
Definition Marshal (m : JobMessage) : json :=
  JObject ([("job_id", JString (jm_JobID m));
            ("user_id", JString (jm_UserID m));
            ("target_date", JString (jm_TargetDate m))] ++
           match jm_InputData m with
           | Some s => [("input_data", JString s)]
           | None => []
           end).

(** [func (c *Client) AddJobToQueue]. [up] tells whether the server
    answers the [LPUSH] of this call. Marshalling a struct of strings
    does not fail. *)
Definition AddJobToQueue (c : Client) (up : bool)
    (r : gmap string (list json)) (jobID userID targetDate : string)
    (inputData : option string) : option string * gmap string (list json) :=
  match client c with
  | None => (Some "redis client not initialized", r)
  | Some _ =>
    let jobMessage := {| jm_JobID := jobID; jm_UserID := userID;
                         jm_TargetDate := targetDate;
                         jm_InputData := inputData |} in
    let messageJSON := Marshal jobMessage in
    if up then (None, Redis.LPUSH "commute_jobs" messageJSON r)
    else (Some ("failed to add job to queue: " ++ "dial tcp: connection refused"), r)
  end.

(** [func (r *Resolver) QueueJob]: [jobData] is a
    [map[string]interface{}]; a JSON [null] and a missing key both read
    as [nil]. *)
Definition QueueJob (c : Client) (up : bool) (r : gmap string (list json))
    (jobData : list (string * json))
    : outcome (option string * gmap string (list json)) :=
  match json_get "job_id" jobData, json_get "user_id" jobData,
        json_get "target_date" jobData with
  | Some (JString jobID), Some (JString userID), Some (JString targetDate) =>
    match json_get "input_data" jobData with
    | None | Some JNull =>
        Returned (AddJobToQueue c up r jobID userID targetDate None)
    | Some (JString dataStr) =>
        Returned (AddJobToQueue c up r jobID userID targetDate (Some dataStr))
    | Some _ => Panicked
    end
  | _, _, _ => Panicked
  end.

(** [type GraphQLResponse struct]: [Data] here is the
    [{"createJob": job}] map of the branch. *)
Record GraphQLResponse : Type := mkResponse {
  Data : option Job;
  Errors : list string;
}.

(** What the outside world decides during one request. *)
Record Env : Type := mkEnv {
  uuid_New : UUID.t;
  time_Now : Z;
  redis_up : bool;
}.

Section Handler.

Variable date_in : string → option string.
Variable jsonb_in : string → option string.

(** The [default:] case of the [/graphql] handler up to its first early
    return: the request is taken for a createJob mutation when its
    variables hold an object [input] with a key [userId]. [None] when the
    request is not taken by this branch. The state is the database and
    the lists of the Redis server; a queueing failure is logged only. *)
Definition handle_createJob (c : Client) (env : Env) (db : DB)
    (r : gmap string (list json)) (Variables : option (list (string * json)))
    : option (outcome (GraphQLResponse * DB * gmap string (list json))) :=
  match Variables with
  | None => None
  | Some vars =>
    match json_get "input" vars with
    | Some (JObject input) =>
      match json_get "userId" input with
      | None => None
      | Some userID =>
        Some
        match userID, json_get "targetDate" input with
        | JString userID, Some (JString targetDate) =>
          let inputData := default JNull (json_get "inputData" input) in
          match (match inputData with
                 | JNull => Returned None
                 | JString inputDataStr => Returned (Some inputDataStr)
                 | _ => Panicked
                 end) with
          | Panicked => Panicked
          | Returned InputData =>
            let createInput := {| ci_UserID := userID;
                                  ci_TargetDate := targetDate;
                                  ci_InputData := InputData |} in
            match CreateJob date_in jsonb_in (uuid_New env) (time_Now env)
                            db createInput with
            | (Err err, db') =>
                Returned ({| Data := None; Errors := [err] |}, db', r)
            | (Ok job, db') =>
              let response := {| Data := Some job; Errors := [] |} in
              let jobData := [("job_id", JString (ID job));
                              ("user_id", JString (UserID job));
                              ("target_date", JString (TargetDate job));
                              ("input_data", inputData)] in
              match QueueJob c (redis_up env) r jobData with
              | Panicked => Panicked
              | Returned (_, r') => Returned (response, db', r')
              end
            end
          end
        | _, _ => Panicked
        end
      end
    | _ => None
    end
  end.

End Handler.

End Backend.

(** ** The gateway: configuration, Redis service, backend client, PubSub
    and resolvers (services/gateway/src) *)

Module Gateway.

Import JobStore.

Record Config : Type := mkConfig {
  backendServiceUrl : string;
  redisJobQueue : string;
  redisProgressChannel : string;
}.

(** [config] when the environment sets none of its variables. *)
Definition config : Config :=
  {| backendServiceUrl := "http://localhost:8080/graphql";
     redisJobQueue := "commute_jobs";
     redisProgressChannel := "job_progress" |}.

(** A JS [Error] is told from a [GraphQLError] by [instanceof]. *)
Inductive js_error : Type :=
| GraphQLError (message code : string)
| Error (message : string).

(** The [timestamp] of a progress event: the ISO text of the wire format,
    or the [Date] object [createCommuteJob] puts there. *)
Inductive timestamp : Type :=
| ISOString (s : string)
| DateObject (ms : Z).

(** [interface JobProgress]. *)
Record JobProgress : Type := mkJobProgress {
  jobId : string;
  status : string;
  progress : Q;
  currentStep : option string;
  result_ : option json;
  errorMessage : option string;
  timestamp_ : timestamp;
}.

(** [interface JobData]. *)
Record JobData : Type := mkJobData {
  job_id : string;
  user_id : string;
  target_date : string;
}.

(** [JSON.stringify(jobData)]. *)
Definition JSON_stringify_JobData (d : JobData) : json :=
  JObject [("job_id", JString (job_id d));
           ("user_id", JString (user_id d));
           ("target_date", JString (target_date d))].

(** [interface CreateCommuteJobInput]; an [inputData] that is [undefined]
    or [null] is [None]. *)
Record CreateCommuteJobInput : Type := mkCreateCommuteJobInput {
  userId : string;
  targetDate : string;
  inputData : option string;
}.

(** *** PubSub of the graphql-subscriptions package

    The package is a dependency, not code of the repository. Its contract:
    every async iterator is a subscription of its own with a fresh id,
    [publish] hands the payload to every subscription of that trigger
    name, in subscription order, and to nobody else. A subscription is
    its trigger name and the payloads delivered so far; its id is its
    position. The payload [{ jobProgress: progress }] is the [progress]. *)
Record subscription : Type := mkSubscription {
  triggerName : string;
  inbox : list JobProgress;
}.

Definition deliver (trigger : string) (payload : JobProgress)
    (s : subscription) : subscription :=
  if decide (triggerName s = trigger)
  then {| triggerName := triggerName s; inbox := inbox s ++ [payload] |}
  else s.

Definition publish (trigger : string) (payload : JobProgress)
    (ps : list subscription) : list subscription :=
  deliver trigger payload <$> ps.

Definition asyncIterator (trigger : string) (ps : list subscription)
    : nat * list subscription :=
  (length ps, (ps ++ [{| triggerName := trigger; inbox := [] |}])%list).

(** The payloads subscription [i] has received. *)
Definition received (i : nat) (ps : list subscription) : list JobProgress :=
  match ps !! i with
  | Some s => inbox s
  | None => []
  end.

(** A sequence of [pubsub.publish(trigger, payload)] calls. *)
Definition publish_all (calls : list (string * JobProgress))
    (ps : list subscription) : list subscription :=
  foldl (λ ps c, publish c.1 c.2 ps) ps calls.

(** The trigger names of the resolvers and of [startServer]. *)
Definition JOB_PROGRESS : string := "JOB_PROGRESS".
Definition JOB_PROGRESS_ (jobId : string) : string := "JOB_PROGRESS_" ++ jobId.

(** [Subscription.jobProgress.subscribe]: an empty [jobId] is falsy. *)
Definition jobProgress_subscribe (jobId : option string)
    (ps : list subscription) : nat * list subscription :=
  match jobId with
  | Some j => if decide (j ≠ EmptyString) then asyncIterator (JOB_PROGRESS_ j) ps
              else asyncIterator JOB_PROGRESS ps
  | None => asyncIterator JOB_PROGRESS ps
  end.

(** *** RedisService (services/redis.ts) *)

Section RedisService.

(** The type of the listeners, [(progress: JobProgress) => void]. *)
Context {L : Type}.

(** [private progressListeners = new Map<string, (progress) => void>()]. *)
Definition subscribeToJobProgress (jobId : string) (listener : L)
    (progressListeners : gmap string L) : gmap string L :=
  <[jobId := listener]> progressListeners.

Definition subscribeToAllProgress (listener : L)
    (progressListeners : gmap string L) : gmap string L :=
  <["*" := listener]> progressListeners.

Definition unsubscribeFromJobProgress (jobId : string)
    (progressListeners : gmap string L) : gmap string L :=
  delete jobId progressListeners.

Definition unsubscribeFromAllProgress
    (progressListeners : gmap string L) : gmap string L :=
  delete "*" progressListeners.

(** The callback [connect] subscribes to the progress channel, given the
    outcome of [JSON.parse(message)] ([None] when it throws, which the
    callback catches and logs): the listener calls it makes, in order. *)
Definition on_message (progressListeners : gmap string L)
    (parsed : option JobProgress) : list (L * JobProgress) :=
  match parsed with
  | None => []
  | Some progress =>
      match progressListeners !! jobId progress with
      | Some listener => [(listener, progress)]
      | None => []
      end ++
      match progressListeners !! "*" with
      | Some globalListener => [(globalListener, progress)]
      | None => []
      end
  end.

End RedisService.

(** [client.lPush] of the node-redis client: [up] tells whether the
    server answers this call. *)
Definition lPush (up : bool) (key : string) (v : json)
    (r : gmap string (list json))
    : result js_error nat * gmap string (list json) :=
  if up then (Ok (S (Redis.LLEN key r)), Redis.LPUSH key v r)
  else (Err (Error "The client is closed"), r).

(** What the node-redis client does with a command: the server answers
    it; the client rejects it (the client is closed, or the connection
    is lost while the command is in flight); or the command stays queued
    (the server is out of reach when the command is issued: the client
    keeps commands while it tries to reconnect). *)
Inductive reply : Type := answered | rejected | queued.

(** [client.lLen]: the outcome of the promise, [None] while it is
    pending. *)
Definition lLen (s : reply) (key : string) (r : gmap string (list json))
    : option (result js_error nat) :=
  match s with
  | answered => Some (Ok (Redis.LLEN key r))
  | rejected => Some (Err (Error "The client is closed"))
  | queued => None
  end.

(** [async pushJob(jobData)]. *)
Definition pushJob (cfg : Config) (up : bool) (jobData : JobData)
    (r : gmap string (list json))
    : result js_error unit * gmap string (list json) :=
  match lPush up (redisJobQueue cfg) (JSON_stringify_JobData jobData) r with
  | (Ok _, r') => (Ok (), r')
  | (Err _, r') => (Err (Error "Failed to queue job for processing"), r')
  end.

(** [async getQueueLength()]: the outcome of its promise, [None] while
    it is pending. *)
Definition getQueueLength (cfg : Config) (s : reply)
    (r : gmap string (list json)) : option (result js_error nat) :=
  match lLen s (redisJobQueue cfg) r with
  | None => None
  | Some (Ok n) => Some (Ok n)
  | Some (Err _) => Some (Ok 0)
  end.

(** *** The relay listener of [startServer] (index.ts) *)

(** The [pubsub.publish] calls of the listener passed to
    [redis.subscribeToAllProgress]. *)
Definition relay (progress : JobProgress) : list (string * JobProgress) :=
  [(JOB_PROGRESS_ (jobId progress), progress); (JOB_PROGRESS, progress)].

(** The listeners after [startServer] has run: only the relay, as the
    global listener. *)
Definition startServer_listeners : gmap string (JobProgress → list (string * JobProgress)) :=
  subscribeToAllProgress relay ∅.

(** All [pubsub.publish] calls made while one message of the progress
    channel is handled. *)
Definition relay_message
    (progressListeners : gmap string (JobProgress → list (string * JobProgress)))
    (parsed : option JobProgress) : list (string * JobProgress) :=
  mjoin ((λ c : (JobProgress → list (string * JobProgress)) * JobProgress, c.1 c.2)
           <$> on_message progressListeners parsed).

(** *** BackendService and the createCommuteJob resolver *)

(** The state both services act on. *)
Record World : Type := mkWorld {
  db : DB;
  redis : gmap string (list json);
  pubsub : list subscription;
}.

(** What the outside world decides during one [createCommuteJob]. *)
Record Env : Type := mkEnv {
  backend_up : bool;
  backend_env : Backend.Env;
  gateway_redis_up : bool;
  Date_now : Z;
}.

(** [const initialProgress: JobProgress] of [createCommuteJob]; [now] is
    the value of [new Date()]. *)
Definition initialProgress (job : Job) (now : Z) : JobProgress :=
  {| jobId := ID job; status := "PENDING"; progress := 0;
     currentStep := Some "Queued for processing"; result_ := None;
     errorMessage := None; timestamp_ := DateObject now |}.

Section Resolvers.

Variable date_in : string → option string.
Variable jsonb_in : string → option string.

(** [BackendService.createJob]: the mutation is posted to the backend's
    [/graphql] with [variables = { input }]; a request that cannot be
    sent, a connection the backend drops and a response with [errors]
    all throw an [Error]. *)
Definition BackendService_createJob (env : Env) (d : DB)
    (r : gmap string (list json)) (input : CreateCommuteJobInput)
    : result js_error Job * DB * gmap string (list json) :=
  if backend_up env then
    let variables :=
      [("input", JObject ([("userId", JString (userId input));
                           ("targetDate", JString (targetDate input))] ++
                          match inputData input with
                          | Some s => [("inputData", JString s)]
                          | None => []
                          end))] in
    match Backend.handle_createJob date_in jsonb_in Backend.redisClient
            (backend_env env) d r (Some variables) with
    | Some (Backend.Returned (response, d', r')) =>
        match Backend.Errors response, Backend.Data response with
        | _ :: _, _ => (Err (Error "Backend GraphQL error: Unknown error"), d', r')
        | [], Some job => (Ok job, d', r')
        | [], None => (Err (Error "Cannot read properties of undefined"), d', r')
        end
    | Some Backend.Panicked => (Err (Error "fetch failed"), d, r)
    | None => (Err (Error "Backend GraphQL error: Unknown error"), d, r)
    end
  else (Err (Error "fetch failed"), d, r).

(** The [try] block of [createCommuteJob]. *)
Definition createCommuteJob_try (cfg : Config) (env : Env) (w : World)
    (input : CreateCommuteJobInput) : result js_error Job * World :=
  if decide (userId input = EmptyString ∨ targetDate input = EmptyString) then
    (Err (GraphQLError "userId and targetDate are required" "BAD_USER_INPUT"), w)
  else
    match BackendService_createJob env (db w) (redis w) input with
    | (Err e, d', r') => (Err e, {| db := d'; redis := r'; pubsub := pubsub w |})
    | (Ok job, d', r') =>
      match pushJob cfg (gateway_redis_up env)
              {| job_id := ID job; user_id := UserID job;
                 target_date := TargetDate job |} r' with
      | (Err e, r'') => (Err e, {| db := d'; redis := r''; pubsub := pubsub w |})
      | (Ok _, r'') =>
        (Ok job, {| db := d'; redis := r'';
                    pubsub := publish JOB_PROGRESS
                                (initialProgress job (Date_now env)) (pubsub w) |})
      end
    end.

(** [Mutation.createCommuteJob]: the [catch] rethrows a [GraphQLError] as
    it is and turns every other error into one generic [GraphQLError]. *)
Definition createCommuteJob (cfg : Config) (env : Env) (w : World)
    (input : CreateCommuteJobInput) : result js_error Job * World :=
  match createCommuteJob_try cfg env w input with
  | (Ok job, w') => (Ok job, w')
  | (Err (GraphQLError message code), w') => (Err (GraphQLError message code), w')
  | (Err (Error _), w') =>
      (Err (GraphQLError "Failed to create commute job" "INTERNAL_ERROR"), w')
  end.

End Resolvers.

End Gateway.

(** ** Histories, acceptance conditions and sample data used to state
    the properties *)

Module Spec.

Import JobStore.

(** A call of the job store. Creations and updates are the calls the
    [/graphql] handler of the backend routes to the store; it routes no
    deletion. *)
Inductive call : Type :=
| call_CreateJob (uuid_New : UUID.t) (now : Z) (input : CreateJobInput)
| call_UpdateJob (now : Z) (id : string) (input : UpdateJobInput).

Section Run.

Variable date_in : string → option string.
Variable jsonb_in : string → option string.
Variable varchar255_in : string → option string.
Variable text_in : string → option string.

(** One call on the ids returned by the creations so far and the
    database. *)
Definition step (st : list string * DB) (c : call) : list string * DB :=
  match c with
  | call_CreateJob uuid_New now input =>
      match CreateJob date_in jsonb_in uuid_New now st.2 input with
      | (Ok job, db') => ((st.1 ++ [ID job])%list, db')
      | (Err _, db') => (st.1, db')
      end
  | call_UpdateJob now id input =>
      (st.1, (UpdateJob jsonb_in varchar255_in text_in now st.2 id input).2)
  end.

(** The ids returned by the creations of a history, oldest first, and the
    database it leaves. *)
Definition run (calls : list call) (db : DB) : list string * DB :=
  foldl step ([], db) calls.

(** A creation the database accepts: the owner exists, the date and the
    input data are well-formed and the identifier drawn is unused. *)
Definition acceptable (db : DB) (uuid_New : UUID.t) (input : CreateJobInput)
    : Prop :=
  (∃ user_id, UUID.cast (ci_UserID input) = Some user_id ∧ user_id ∈ users db) ∧
  is_Some (date_in (ci_TargetDate input)) ∧
  (∀ s, ci_InputData input = Some s → s ≠ EmptyString → is_Some (jsonb_in s)) ∧
  jobs db !! UUID.uuid_out uuid_New = None.

(** An update whose supplied values the columns accept. *)
Definition accepted (input : UpdateJobInput) : Prop :=
  (∀ v, ui_Status input = Some v → is_Some (job_status_in v)) ∧
  (∀ v, ui_CurrentStep input = Some v → is_Some (varchar255_in v)) ∧
  (∀ v, ui_Result input = Some v → is_Some (jsonb_in v)) ∧
  (∀ v, ui_ErrorMessage input = Some v → is_Some (text_in v)).

(** [job] is the row [old] with exactly the supplied fields overwritten
    and [updated_at] set to [now]. *)
Definition updated (now : Z) (input : UpdateJobInput) (old job : Job) : Prop :=
  ID job = ID old ∧ UserID job = UserID old ∧
  TargetDate job = TargetDate old ∧ InputData job = InputData old ∧
  CreatedAt job = CreatedAt old ∧ UpdatedAt job = now ∧
  match ui_Status input with
  | Some v => job_status_in v = Some (Status job)
  | None => Status job = Status old
  end ∧
  match ui_Progress input with
  | Some v => Progress job = v
  | None => Progress job = Progress old
  end ∧
  match ui_CurrentStep input with
  | Some v => Some <$> varchar255_in v = Some (CurrentStep job)
  | None => CurrentStep job = CurrentStep old
  end ∧
  match ui_Result input with
  | Some v => Some <$> jsonb_in v = Some (Result job)
  | None => Result job = Result old
  end ∧
  match ui_ErrorMessage input with
  | Some v => Some <$> text_in v = Some (ErrorMessage job)
  | None => ErrorMessage job = ErrorMessage old
  end.

End Run.

(** The input data a createJob request supplies: the string under
    [inputData] of its [input] object. *)
Definition request_InputData (Variables : option (list (string * json)))
    : option string :=
  match Variables with
  | Some vars =>
      match json_get "input" vars with
      | Some (JObject input) =>
          match json_get "inputData" input with
          | Some (JString s) => Some s
          | _ => None
          end
      | _ => None
      end
  | None => None
  end.

(** The trigger name [Subscription.jobProgress.subscribe] picks. *)
Definition subscribed_topic (jobId : option string) : string :=
  match jobId with
  | Some j => if decide (j ≠ EmptyString) then Gateway.JOB_PROGRESS_ j
              else Gateway.JOB_PROGRESS
  | None => Gateway.JOB_PROGRESS
  end.

(** Whether the backend's [LPUSH] of a request goes through. *)
Definition backend_pushes (c : Backend.Client) (env : Backend.Env) : bool :=
  match Backend.client c with
  | Some _ => Backend.redis_up env
  | None => false
  end.

(** The descriptor the backend marshals for a created job. *)
Definition backend_descriptor (job : Job) (inputData : option string) : json :=
  Backend.Marshal {| Backend.jm_JobID := ID job; Backend.jm_UserID := UserID job;
                     Backend.jm_TargetDate := TargetDate job;
                     Backend.jm_InputData := inputData |}.

(** The creation the backend performs for a gateway request. *)
Definition gateway_create_input (input : Gateway.CreateCommuteJobInput)
    : CreateJobInput :=
  {| ci_UserID := Gateway.userId input;
     ci_TargetDate := Gateway.targetDate input;
     ci_InputData := Gateway.inputData input |}.

(** The keys every descriptor has. *)
Definition descriptor_keys : list string := ["job_id"; "user_id"; "target_date"].

(** The descriptor the gateway pushes for a created job. *)
Definition gateway_descriptor (job : Job) : json :=
  Gateway.JSON_stringify_JobData
    {| Gateway.job_id := ID job; Gateway.user_id := UserID job;
       Gateway.target_date := TargetDate job |}.

(** The error [createCommuteJob] raises for every failure that is not a
    [GraphQLError] already. *)
Definition generic_failure : Gateway.js_error :=
  Gateway.GraphQLError "Failed to create commute job" "INTERNAL_ERROR".

(** Whether the text [needle] occurs in [hay]. *)
Definition occurs_in (needle hay : string) : bool :=
  match String.index 0 needle hay with
  | Some _ => true
  | None => false
  end.

(** An error carries a job id when the id occurs in its message or code. *)
Definition carries (id : string) (e : Gateway.js_error) : bool :=
  match e with
  | Gateway.GraphQLError message code => occurs_in id message || occurs_in id code
  | Gateway.Error message => occurs_in id message
  end.

(** *** Sample data *)

Definition john : string := "550e8400-e29b-41d4-a716-446655440001".
Definition jane : string := "550e8400-e29b-41d4-a716-446655440002".

(** The second sample job of the seed data, finished. *)
Definition finished_job : Job :=
  {| ID := "650e8400-e29b-41d4-a716-446655440002"; UserID := jane;
     Status := COMPLETED; Progress := 1;
     CurrentStep := Some "Analysis complete"; TargetDate := "2025-08-12";
     InputData := None; Result := None; ErrorMessage := None;
     CreatedAt := 100; UpdatedAt := 200 |}.

Definition sample_db : DB :=
  {| users := {[john; jane]}; jobs := {[ID finished_job := finished_job]} |}.

Definition reopen : UpdateJobInput :=
  {| ui_Status := Some "PENDING"; ui_Progress := None; ui_CurrentStep := None;
     ui_Result := None; ui_ErrorMessage := None |}.

Definition half_done : UpdateJobInput :=
  {| ui_Status := None; ui_Progress := Some (1 # 2)%Q;
     ui_CurrentStep := Some "Analyzing calendar events";
     ui_Result := None; ui_ErrorMessage := None |}.

(** An identifier [uuid.New()] draws, and its text. *)
Definition new_uuid : UUID.t :=
  UUID.mk x7c x9e x66 x79 x74 x25 x40 xde x94 x4b xe0 x7f xc1 xf9 x0a xe7.

Definition new_id : string := "7c9e6679-7425-40de-944b-e07fc1f90ae7".

(** A history: one creation, then a progress update of the new job. *)
Definition sample_history : list call :=
  [call_CreateJob
     (UUID.mk x0b x0e x7d x1c x5d x3a x4b x8e x9c x55 x1f x2a x3b x4c x5d x6e) 250
     {| ci_UserID := jane; ci_TargetDate := "2025-08-20"; ci_InputData := None |};
   call_UpdateJob 260 "0b0e7d1c-5d3a-4b8e-9c55-1f2a3b4c5d6e"
     {| ui_Status := Some "IN_PROGRESS"; ui_Progress := Some (1 # 4)%Q;
        ui_CurrentStep := None; ui_Result := None; ui_ErrorMessage := None |}].

Definition sample_create : CreateJobInput :=
  {| ci_UserID := john; ci_TargetDate := "2025-08-15"; ci_InputData := None |}.

Definition sample_request : Gateway.CreateCommuteJobInput :=
  {| Gateway.userId := john; Gateway.targetDate := "2025-08-15";
     Gateway.inputData := Some "{}" |}.

(** The job the sample submissions create, without and with input
    data, and the database they leave. *)
Definition plain_job : Job :=
  {| ID := new_id; UserID := john; Status := PENDING; Progress := 0;
     CurrentStep := None; TargetDate := "2025-08-15"; InputData := None;
     Result := None; ErrorMessage := None; CreatedAt := 300; UpdatedAt := 300 |}.

Definition sample_job : Job :=
  {| ID := new_id; UserID := john; Status := PENDING; Progress := 0;
     CurrentStep := None; TargetDate := "2025-08-15"; InputData := Some "{}";
     Result := None; ErrorMessage := None; CreatedAt := 300; UpdatedAt := 300 |}.

Definition db_with (job : Job) : DB :=
  {| users := users sample_db; jobs := <[ID job := job]> (jobs sample_db) |}.

(** The variables of a createJob request sent straight to the backend. *)
Definition sample_variables : option (list (string * json)) :=
  Some [("input", JObject [("userId", JString john);
                           ("targetDate", JString "2025-08-15")])].

(** The same request with input data. *)
Definition sample_variables_data : option (list (string * json)) :=
  Some [("input", JObject [("userId", JString john);
                           ("targetDate", JString "2025-08-15");
                           ("inputData", JString "{}")])].

(** A world with one aggregate subscriber (id 0) and one subscriber of
    the job about to be created (id 1). *)
Definition sample_world : Gateway.World :=
  {| Gateway.db := sample_db; Gateway.redis := ∅;
     Gateway.pubsub := [ {| Gateway.triggerName := Gateway.JOB_PROGRESS;
                            Gateway.inbox := [] |};
                         {| Gateway.triggerName := Gateway.JOB_PROGRESS_ new_id;
                            Gateway.inbox := [] |} ] |}.

Definition backend_env (redis_up : bool) : Backend.Env :=
  {| Backend.uuid_New := new_uuid; Backend.time_Now := 300;
     Backend.redis_up := redis_up |}.

(** Everything answers. *)
Definition env_up : Gateway.Env :=
  {| Gateway.backend_up := true; Gateway.backend_env := backend_env true;
     Gateway.gateway_redis_up := true; Gateway.Date_now := 301 |}.

(** The gateway's [lPush] fails after the backend has created the job. *)
Definition env_queue_down : Gateway.Env :=
  {| Gateway.backend_up := true; Gateway.backend_env := backend_env true;
     Gateway.gateway_redis_up := false; Gateway.Date_now := 301 |}.

(** The backend cannot be reached: the creation itself fails. *)
Definition env_backend_down : Gateway.Env :=
  {| Gateway.backend_up := false; Gateway.backend_env := backend_env true;
     Gateway.gateway_redis_up := true; Gateway.Date_now := 301 |}.

(** The world the sample request leaves when everything answers. *)
Definition sample_world_after : Gateway.World :=
  {| Gateway.db := db_with sample_job;
     Gateway.redis :=
       Redis.LPUSH "commute_jobs" (gateway_descriptor sample_job)
         (Redis.LPUSH "commute_jobs" (backend_descriptor sample_job (Some "{}")) ∅);
     Gateway.pubsub :=
       Gateway.publish Gateway.JOB_PROGRESS (Gateway.initialProgress sample_job 301)
         (Gateway.pubsub sample_world) |}.

(** A progress event of the worker. *)
Definition sample_progress : Gateway.JobProgress :=
  {| Gateway.jobId := new_id; Gateway.status := "IN_PROGRESS";
     Gateway.progress := (3 # 10)%Q; Gateway.currentStep := None;
     Gateway.result_ := None; Gateway.errorMessage := None;
     Gateway.timestamp_ := Gateway.ISOString "2025-08-15T09:00:00Z" |}.

End Spec.

(** ** More of the job store: [DeleteJob] and [Jobs]
    (pkg/resolvers/resolver.go) *)

Module JobStoreMore.

Import JobStore.

(** [func (r *Resolver) DeleteJob]: [DELETE FROM jobs WHERE id = $1],
    answered with [rowsAffected > 0]; an id the database rejects is an
    error of the statement. (The rows of [commute_recommendations] that
    cascade with the job are outside this model.) *)
Definition DeleteJob (db : DB) (id : string) : result string bool * DB :=
  match UUID.cast id with
  | None =>
      (Err ("error deleting job: " ++ "invalid input syntax for type uuid"), db)
  | Some id =>
    match jobs db !! id with
    | Some _ => (Ok true, {| users := users db; jobs := delete id (jobs db) |})
    | None => (Ok false, db)
    end
  end.

(** [ORDER BY created_at DESC]. *)
Definition newer_first (a b : Job) : Prop := (CreatedAt b ≤ CreatedAt a)%Z.

#[global] Instance newer_first_dec : RelDecision newer_first.
Proof. intros a b. unfold newer_first. apply _. Defined.

(** The rows of [jobs], in no particular order. *)
Definition rows (db : DB) : list Job := (map_to_list (jobs db)).*2.

(** [func (r *Resolver) Jobs]: the rows of one owner, or all rows, newest
    first; an owner id the database rejects is an error of the query.
    SQL leaves the order of rows with equal [created_at] open; here it is
    the one the sort makes of [rows]. *)
Definition Jobs (db : DB) (userID : option string) : result string (list Job) :=
  match userID with
  | Some u =>
      match UUID.cast u with
      | None =>
          Err ("error fetching jobs: " ++ "invalid input syntax for type uuid")
      | Some u =>
          Ok (merge_sort newer_first (filter (λ j, UserID j = u) (rows db)))
      end
  | None => Ok (merge_sort newer_first (rows db))
  end.

(** A database in which every row is stored under its own id and is owned
    by a user of [users]: what the primary key and the foreign key of
    [jobs] maintain. *)
Definition consistent (db : DB) : Prop :=
  ∀ k j, jobs db !! k = Some j → ID j = k ∧ UserID j ∈ users db.

(** The fields no update touches. *)
Definition same_identity (j j' : Job) : Prop :=
  ID j' = ID j ∧ UserID j' = UserID j ∧ TargetDate j' = TargetDate j ∧
  InputData j' = InputData j ∧ CreatedAt j' = CreatedAt j.

(** The update that supplies a progress value only. *)
Definition progress_only (p : Q) : UpdateJobInput :=
  {| ui_Status := None; ui_Progress := Some p; ui_CurrentStep := None;
     ui_Result := None; ui_ErrorMessage := None |}.

End JobStoreMore.

(** ** More of the backend handler: the updateJob branch, the whole
    [default:] case and the [switch] on the query text (cmd/main.go) *)

Module BackendMore.

Import JobStore.

(** [response.Data]: the one-entry map the branch puts there. *)
Inductive data : Type :=
| data_health (health : string)
| data_createJob (job : Job)
| data_updateJob (job : Job).

Record Response : Type := mkResponse {
  Data : option data;
  Errors : list string;
}.

(** [type GraphQLRequest struct]. *)
Record GraphQLRequest : Type := mkRequest {
  Query : string;
  Variables : option (list (string * json));
}.

(** [if v, exists := input[k]; exists && v != nil { s := v.(string) ... }]:
    a missing key and [null] leave the pointer [nil], another type
    panics. *)
Definition string_field (k : string) (input : list (string * json))
    : Backend.outcome (option string) :=
  match json_get k input with
  | None | Some JNull => Backend.Returned None
  | Some (JString s) => Backend.Returned (Some s)
  | Some _ => Backend.Panicked
  end.

(** The same with [v.(float64)]; the decoder reads every JSON number as a
    [float64]. *)
Definition float64_field (k : string) (input : list (string * json))
    : Backend.outcome (option Q) :=
  match json_get k input with
  | None | Some JNull => Backend.Returned None
  | Some (JNumber q) => Backend.Returned (Some q)
  | Some _ => Backend.Panicked
  end.

(** The five [if ... exists && ... != nil] blocks that fill
    [updateInput]. *)
Definition read_UpdateJobInput (input : list (string * json))
    : Backend.outcome UpdateJobInput :=
  match string_field "status" input with
  | Backend.Panicked => Backend.Panicked
  | Backend.Returned Status =>
    match float64_field "progress" input with
    | Backend.Panicked => Backend.Panicked
    | Backend.Returned Progress =>
      match string_field "currentStep" input with
      | Backend.Panicked => Backend.Panicked
      | Backend.Returned CurrentStep =>
        match string_field "result" input with
        | Backend.Panicked => Backend.Panicked
        | Backend.Returned Result =>
          match string_field "errorMessage" input with
          | Backend.Panicked => Backend.Panicked
          | Backend.Returned ErrorMessage =>
              Backend.Returned
                {| ui_Status := Status; ui_Progress := Progress;
                   ui_CurrentStep := CurrentStep; ui_Result := Result;
                   ui_ErrorMessage := ErrorMessage |}
          end
        end
      end
    end
  end.

(** What the fields of an [input] object say when they are well-typed:
    the string or number under the key, nothing for a missing key or
    [null]. *)
Definition wire_string (k : string) (input : list (string * json))
    : option string :=
  match json_get k input with
  | Some (JString s) => Some s
  | _ => None
  end.

Definition wire_number (k : string) (input : list (string * json)) : option Q :=
  match json_get k input with
  | Some (JNumber q) => Some q
  | _ => None
  end.

Definition wire_UpdateJobInput (input : list (string * json)) : UpdateJobInput :=
  {| ui_Status := wire_string "status" input;
     ui_Progress := wire_number "progress" input;
     ui_CurrentStep := wire_string "currentStep" input;
     ui_Result := wire_string "result" input;
     ui_ErrorMessage := wire_string "errorMessage" input |}.

Definition string_or_null (k : string) (input : list (string * json)) : bool :=
  match json_get k input with
  | None | Some JNull | Some (JString _) => true
  | Some _ => false
  end.

Definition number_or_null (k : string) (input : list (string * json)) : bool :=
  match json_get k input with
  | None | Some JNull | Some (JNumber _) => true
  | Some _ => false
  end.

(** Every field of an updateJob input has the type its assertion asks
    for, is [null] or is missing. *)
Definition well_typed_update (input : list (string * json)) : bool :=
  string_or_null "status" input && number_or_null "progress" input &&
  string_or_null "currentStep" input && string_or_null "result" input &&
  string_or_null "errorMessage" input.

Definition not_supported : string :=
  "Query not supported in this basic implementation. Try: { health } or { users { id email name } } or createJob/updateJob mutations".

Section Handler.

Variable date_in : string → option string.
Variable jsonb_in : string → option string.
Variable varchar255_in : string → option string.
Variable text_in : string → option string.

(** The updateJob part of the [default:] case: taken when the variables
    hold a string [id] and an object [input]; [None] otherwise. [NOW] is
    the database's clock for the statement. *)
Definition handle_updateJob (NOW : Z) (db : DB)
    (Variables : option (list (string * json)))
    : option (Backend.outcome (Response * DB)) :=
  match Variables with
  | None => None
  | Some vars =>
    match json_get "id" vars, json_get "input" vars with
    | Some (JString id), Some (JObject input) =>
      Some
      match read_UpdateJobInput input with
      | Backend.Panicked => Backend.Panicked
      | Backend.Returned updateInput =>
        match UpdateJob jsonb_in varchar255_in text_in NOW db id updateInput with
        | (Err err, db') =>
            Backend.Returned ({| Data := None; Errors := [err] |}, db')
        | (Ok job, db') =>
            Backend.Returned
              ({| Data := Some (data_updateJob job); Errors := [] |}, db')
        end
      end
    | _, _ => None
    end
  end.

(** The [default:] case: the createJob branch, else the updateJob branch,
    else the error that the query is not supported. *)
Definition handle_default (c : Backend.Client) (env : Backend.Env) (NOW : Z)
    (db : DB) (r : gmap string (list json))
    (Variables : option (list (string * json)))
    : Backend.outcome (Response * DB * gmap string (list json)) :=
  match Backend.handle_createJob date_in jsonb_in c env db r Variables with
  | Some Backend.Panicked => Backend.Panicked
  | Some (Backend.Returned (response, db', r')) =>
      Backend.Returned
        ({| Data := data_createJob <$> Backend.Data response;
            Errors := Backend.Errors response |}, db', r')
  | None =>
    match handle_updateJob NOW db Variables with
    | Some Backend.Panicked => Backend.Panicked
    | Some (Backend.Returned (response, db')) =>
        Backend.Returned (response, db', r)
    | None =>
        Backend.Returned ({| Data := None; Errors := [not_supported] |}, db, r)
    end
  end.

End Handler.

(** The cases of the [switch] on the query text. *)
Inductive route : Type :=
| route_health
| route_users
| route_calendarEvents
| route_default.

Definition route_of (Query : string) : route :=
  if decide (Query = "{ health }" ∨ Query = "query { health }")
  then route_health
  else if decide (Query = "{ users }" ∨ Query = "{ users { id email name } }" ∨
                  Query = "query { users { id email name } }")
  then route_users
  else if Spec.occurs_in "calendarEvents" Query then route_calendarEvents
  else route_default.

Section POST.

Variable date_in : string → option string.
Variable jsonb_in : string → option string.
Variable varchar255_in : string → option string.
Variable text_in : string → option string.

(** The handler of [/graphql] for a decoded [POST] request. [None] for
    the two cases whose resolvers ([Users], [CalendarEvents]) read tables
    outside this model. *)
Definition graphql_POST (c : Backend.Client) (env : Backend.Env) (NOW : Z)
    (db : DB) (r : gmap string (list json)) (req : GraphQLRequest)
    : option (Backend.outcome (Response * DB * gmap string (list json))) :=
  match route_of (Query req) with
  | route_health =>
      Some (Backend.Returned
              ({| Data := Some (data_health "OK"); Errors := [] |}, db, r))
  | route_users | route_calendarEvents => None
  | route_default =>
      Some (handle_default date_in jsonb_in varchar255_in text_in c env NOW db r
              (Variables req))
  end.

End POST.

End BackendMore.

(** ** More of the gateway: the state of the Redis service, the health
    resolvers and the delegations to the backend (services/gateway/src) *)

Module GatewayMore.

Import JobStore.

(** *** RedisService: connection flag and listeners (services/redis.ts) *)

Record RedisService (L : Type) : Type := mkRedisService {
  isConnected : bool;
  progressListeners : gmap string L;
}.
Arguments mkRedisService {L} _ _.
Arguments isConnected {L} _.
Arguments progressListeners {L} _.

(** The field initialisers of the class. *)
Definition new_RedisService {L : Type} : RedisService L :=
  {| isConnected := false; progressListeners := ∅ |}.

(** [async connect()]: [connects] tells whether both clients connect and
    the channel subscription is made; a failure is logged and rethrown
    before the flag is set. *)
Definition connect {L : Type} (connects : bool) (svc : RedisService L)
    : result Gateway.js_error (RedisService L) :=
  if connects
  then Ok {| isConnected := true; progressListeners := progressListeners svc |}
  else Err (Gateway.Error "connect ECONNREFUSED").

(** [async disconnect()]: [disconnects] tells whether both clients
    disconnect; a failure is rethrown before the state is touched. *)
Definition disconnect {L : Type} (disconnects : bool) (svc : RedisService L)
    : result Gateway.js_error (RedisService L) :=
  if disconnects
  then Ok {| isConnected := false; progressListeners := ∅ |}
  else Err (Gateway.Error "The client is closed").

Definition isHealthy {L : Type} (svc : RedisService L) : bool := isConnected svc.

(** *** The health resolvers and the [/health] endpoint
    (resolvers/index.ts, index.ts) *)

(** [try { body } catch (error) { handler }] around a body without
    effects of its own. *)
Definition try_catch {A : Type} (body : result Gateway.js_error A)
    (handler : Gateway.js_error → result Gateway.js_error A)
    : result Gateway.js_error A :=
  match body with
  | Ok a => Ok a
  | Err e => handler e
  end.

Record QueueStatus : Type := mkQueueStatus {
  qs_length : nat;
  qs_processing : nat;
}.

(** [Query.queueStatus]: the outcome of the resolver's promise, [None]
    while [await redis.getQueueLength()] is pending. *)
Definition queueStatus (cfg : Gateway.Config) (s : Gateway.reply)
    (r : gmap string (list json))
    : option (result Gateway.js_error QueueStatus) :=
  match Gateway.getQueueLength cfg s r with
  | None => None
  | Some awaited =>
      Some (try_catch
              (match awaited with
               | Ok length => Ok {| qs_length := length; qs_processing := 0 |}
               | Err e => Err e
               end)
              (λ _, Err (Gateway.GraphQLError "Failed to fetch queue status"
                           "INTERNAL_ERROR")))
  end.

Record HealthStatus : Type := mkHealthStatus {
  hs_status : string;
  hs_redis : bool;
  hs_queue : nat;
  hs_backend : string;
  hs_timestamp : Z;
}.

(** [Query.gatewayHealth]; [timestamp] is the value of [new Date()].
    [None] while [await redis.getQueueLength()] is pending. *)
Definition gatewayHealth {L : Type} (cfg : Gateway.Config)
    (svc : RedisService L) (s : Gateway.reply) (r : gmap string (list json))
    (timestamp : Z) : option (result Gateway.js_error HealthStatus) :=
  match Gateway.getQueueLength cfg s r with
  | None => None
  | Some awaited =>
      Some (try_catch
              (match awaited with
               | Ok queueLength =>
                   Ok {| hs_status := "healthy"; hs_redis := isHealthy svc;
                         hs_queue := queueLength;
                         hs_backend := Gateway.backendServiceUrl cfg;
                         hs_timestamp := timestamp |}
               | Err e => Err e
               end)
              (λ _, Ok {| hs_status := "unhealthy"; hs_redis := false;
                          hs_queue := 0;
                          hs_backend := Gateway.backendServiceUrl cfg;
                          hs_timestamp := timestamp |}))
  end.

(** [app.get('/health', ...)]: the status code and the body, which has
    [services] only when the [try] goes through; no response ([None])
    while [await redis.getQueueLength()] is pending. *)
Record HealthResponse : Type := mkHealthResponse {
  http_status : nat;
  body_status : string;
  body_services : option (bool * nat * string);
}.

Definition health_endpoint {L : Type} (cfg : Gateway.Config)
    (svc : RedisService L) (s : Gateway.reply) (r : gmap string (list json))
    : option HealthResponse :=
  match Gateway.getQueueLength cfg s r with
  | None => None
  | Some (Ok queueLength) =>
      Some {| http_status := 200; body_status := "healthy";
              body_services :=
                Some (isHealthy svc, queueLength, Gateway.backendServiceUrl cfg) |}
  | Some (Err _) =>
      Some {| http_status := 503; body_status := "unhealthy";
              body_services := None |}
  end.

(** *** BackendService: the texts it posts (services/backend.ts) *)

Definition UpdateUser_mutation : string :=
  "
      mutation UpdateUser($id: ID!, $input: UpdateUserInput!) {
        updateUser(id: $id, input: $input) {
          id
          email
          name
          userPreferences
          createdAt
          updatedAt
        }
      }
    ".

Definition GetJob_query : string :=
  "
      query GetJob($id: ID!) {
        job(id: $id) {
          id
          userId
          status
          progress
          currentStep
          targetDate
          inputData
          result
          errorMessage
          createdAt
          updatedAt
        }
      }
    ".

Definition GetJobs_query : string :=
  "
      query GetJobs($userId: ID) {
        jobs(userId: $userId) {
          id
          userId
          status
          progress
          currentStep
          targetDate
          inputData
          result
          errorMessage
          createdAt
          updatedAt
        }
      }
    ".

Definition CreateJob_mutation : string :=
  "
      mutation CreateJob($input: CreateJobInput!) {
        createJob(input: $input) {
          id
          userId
          status
          progress
          currentStep
          targetDate
          inputData
          result
          errorMessage
          createdAt
          updatedAt
        }
      }
    ".

Definition UpdateJob_mutation : string :=
  "
      mutation UpdateJob($id: ID!, $input: UpdateJobInput!) {
        updateJob(id: $id, input: $input) {
          id
          userId
          status
          progress
          currentStep
          targetDate
          inputData
          result
          errorMessage
          createdAt
          updatedAt
        }
      }
    ".

Definition DeleteJob_mutation : string :=
  "
      mutation DeleteJob($id: ID!) {
        deleteJob(id: $id)
      }
    ".

Definition GetCalendarEvents_query : string :=
  "
      query GetCalendarEvents($userId: ID!) {
        calendarEvents(userId: $userId) {
          id
          userId
          summary
          description
          startTime
          endTime
          location
          attendees
          meetingType
          attendanceMode
          isAllDay
          isRecurring
          googleEventId
          createdAt
          updatedAt
        }
      }
    ".

(** [interface] of the [input] of [BackendService.updateJob]; a field
    that is [undefined] is [None] and is left out of the JSON text. *)
Record UpdateJobArgs : Type := mkUpdateJobArgs {
  uj_status : option string;
  uj_progress : option Q;
  uj_currentStep : option string;
  uj_result : option string;
  uj_errorMessage : option string;
}.

(** The [input] of [BackendService.updateUser]. *)
Record UpdateUserArgs : Type := mkUpdateUserArgs {
  uu_email : option string;
  uu_name : option string;
  uu_userPreferences : option string;
}.

(** [JSON.stringify] of an optional string or number property. *)
Definition string_property (k : string) (v : option string)
    : list (string * json) :=
  match v with
  | Some s => [(k, JString s)]
  | None => []
  end.

Definition number_property (k : string) (v : option Q) : list (string * json) :=
  match v with
  | Some q => [(k, JNumber q)]
  | None => []
  end.

Definition UpdateJobArgs_json (input : UpdateJobArgs) : json :=
  JObject (string_property "status" (uj_status input) ++
           number_property "progress" (uj_progress input) ++
           string_property "currentStep" (uj_currentStep input) ++
           string_property "result" (uj_result input) ++
           string_property "errorMessage" (uj_errorMessage input)).

Definition UpdateUserArgs_json (input : UpdateUserArgs) : json :=
  JObject (string_property "email" (uu_email input) ++
           string_property "name" (uu_name input) ++
           string_property "userPreferences" (uu_userPreferences input)).

Definition CreateCommuteJobInput_json (input : Gateway.CreateCommuteJobInput)
    : json :=
  JObject ([("userId", JString (Gateway.userId input));
            ("targetDate", JString (Gateway.targetDate input))] ++
           string_property "inputData" (Gateway.inputData input)).

(** The update the backend reads from the JSON text of an
    [UpdateJobArgs]. *)
Definition UpdateJobInput_of (input : UpdateJobArgs) : UpdateJobInput :=
  {| ui_Status := uj_status input; ui_Progress := uj_progress input;
     ui_CurrentStep := uj_currentStep input; ui_Result := uj_result input;
     ui_ErrorMessage := uj_errorMessage input |}.

(** The update that supplies no field. *)
Definition no_fields : UpdateJobInput :=
  {| ui_Status := None; ui_Progress := None; ui_CurrentStep := None;
     ui_Result := None; ui_ErrorMessage := None |}.

Section Delegation.

Variable date_in : string → option string.
Variable jsonb_in : string → option string.
Variable varchar255_in : string → option string.
Variable text_in : string → option string.

(** [private async makeGraphQLRequest(query, variables)] against the
    backend's [/graphql]: the [data] of the response, or a thrown [Error]
    when the request cannot be sent, the backend drops the connection
    or the response has [errors]. [NOW] is the clock of the backend's
    database. [None] where the backend answers from a resolver outside
    this model. *)
Definition makeGraphQLRequest (env : Gateway.Env) (NOW : Z) (d : DB)
    (r : gmap string (list json)) (query : string)
    (variables : option (list (string * json)))
    : option (result Gateway.js_error (option BackendMore.data) * DB *
              gmap string (list json)) :=
  if Gateway.backend_up env then
    match BackendMore.graphql_POST date_in jsonb_in varchar255_in text_in
            Backend.redisClient (Gateway.backend_env env) NOW d r
            {| BackendMore.Query := query; BackendMore.Variables := variables |} with
    | None => None
    | Some Backend.Panicked => Some (Err (Gateway.Error "fetch failed"), d, r)
    | Some (Backend.Returned (response, d', r')) =>
        match BackendMore.Errors response with
        | _ :: _ =>
            Some (Err (Gateway.Error "Backend GraphQL error: Unknown error"), d', r')
        | [] => Some (Ok (BackendMore.Data response), d', r')
        end
    end
  else Some (Err (Gateway.Error "fetch failed"), d, r).

(** [data.createJob], [data.updateJob], [data?.job]: the property of the
    response's [data]; reading a property of an absent [data] throws
    unless the access is [?.]. *)
Definition data_createJob_of (data : option BackendMore.data)
    : result Gateway.js_error (option Job) :=
  match data with
  | None => Err (Gateway.Error "Cannot read properties of undefined")
  | Some (BackendMore.data_createJob job) => Ok (Some job)
  | Some _ => Ok None
  end.

Definition data_updateJob_of (data : option BackendMore.data)
    : result Gateway.js_error (option Job) :=
  match data with
  | None => Err (Gateway.Error "Cannot read properties of undefined")
  | Some (BackendMore.data_updateJob job) => Ok (Some job)
  | Some _ => Ok None
  end.

(** [async createJob(input)], through [makeGraphQLRequest]. *)
Definition createJob (env : Gateway.Env) (NOW : Z) (d : DB)
    (r : gmap string (list json)) (input : Gateway.CreateCommuteJobInput)
    : option (result Gateway.js_error (option Job) * DB * gmap string (list json)) :=
  match makeGraphQLRequest env NOW d r CreateJob_mutation
          (Some [("input", CreateCommuteJobInput_json input)]) with
  | None => None
  | Some (Err e, d', r') => Some (Err e, d', r')
  | Some (Ok data, d', r') => Some (data_createJob_of data, d', r')
  end.

(** [async getJob(id)]: [data?.job || null]. No [data] of the backend
    has a [job] entry. *)
Definition getJob (env : Gateway.Env) (NOW : Z) (d : DB)
    (r : gmap string (list json)) (id : string)
    : option (result Gateway.js_error (option Job) * DB * gmap string (list json)) :=
  match makeGraphQLRequest env NOW d r GetJob_query
          (Some [("id", JString id)]) with
  | None => None
  | Some (Err e, d', r') => Some (Err e, d', r')
  | Some (Ok _, d', r') => Some (Ok None, d', r')
  end.

(** [async getJobs(userId?)]: [data?.jobs || []]. *)
Definition getJobs (env : Gateway.Env) (NOW : Z) (d : DB)
    (r : gmap string (list json)) (userId : option string)
    : option (result Gateway.js_error (list Job) * DB * gmap string (list json)) :=
  match makeGraphQLRequest env NOW d r GetJobs_query
          (Some (string_property "userId" userId)) with
  | None => None
  | Some (Err e, d', r') => Some (Err e, d', r')
  | Some (Ok _, d', r') => Some (Ok [], d', r')
  end.

(** [async updateJob(id, input)]: [data.updateJob]. *)
Definition updateJob (env : Gateway.Env) (NOW : Z) (d : DB)
    (r : gmap string (list json)) (id : string) (input : UpdateJobArgs)
    : option (result Gateway.js_error (option Job) * DB * gmap string (list json)) :=
  match makeGraphQLRequest env NOW d r UpdateJob_mutation
          (Some [("id", JString id); ("input", UpdateJobArgs_json input)]) with
  | None => None
  | Some (Err e, d', r') => Some (Err e, d', r')
  | Some (Ok data, d', r') => Some (data_updateJob_of data, d', r')
  end.

(** [async deleteJob(id)]: [data.deleteJob]; no [data] of the backend has
    a [deleteJob] entry. *)
Definition deleteJob (env : Gateway.Env) (NOW : Z) (d : DB)
    (r : gmap string (list json)) (id : string)
    : option (result Gateway.js_error (option bool) * DB * gmap string (list json)) :=
  match makeGraphQLRequest env NOW d r DeleteJob_mutation
          (Some [("id", JString id)]) with
  | None => None
  | Some (Err e, d', r') => Some (Err e, d', r')
  | Some (Ok None, d', r') =>
      Some (Err (Gateway.Error "Cannot read properties of undefined"), d', r')
  | Some (Ok (Some _), d', r') => Some (Ok None, d', r')
  end.

(** [async updateUser(id, input)]: [data.updateUser]; no [data] of the
    backend has an [updateUser] entry. *)
Definition updateUser (env : Gateway.Env) (NOW : Z) (d : DB)
    (r : gmap string (list json)) (id : string) (input : UpdateUserArgs)
    : option (result Gateway.js_error (option string) * DB * gmap string (list json)) :=
  match makeGraphQLRequest env NOW d r UpdateUser_mutation
          (Some [("id", JString id); ("input", UpdateUserArgs_json input)]) with
  | None => None
  | Some (Err e, d', r') => Some (Err e, d', r')
  | Some (Ok None, d', r') =>
      Some (Err (Gateway.Error "Cannot read properties of undefined"), d', r')
  | Some (Ok (Some _), d', r') => Some (Ok None, d', r')
  end.

(** The resolvers that delegate: [try { return await backendService.f(...) }
    catch { throw new GraphQLError(message, BACKEND_ERROR) }]. *)
Definition delegate {A : Type} (message : string)
    (call : option (result Gateway.js_error A * DB * gmap string (list json)))
    : option (result Gateway.js_error A * DB * gmap string (list json)) :=
  match call with
  | None => None
  | Some (Ok a, d', r') => Some (Ok a, d', r')
  | Some (Err _, d', r') =>
      Some (Err (Gateway.GraphQLError message "BACKEND_ERROR"), d', r')
  end.

(** [Query.job], [Query.jobs], [Mutation.updateJob], [Mutation.deleteJob],
    [Mutation.updateUser]. *)
Definition Query_job (env : Gateway.Env) (NOW : Z) (d : DB)
    (r : gmap string (list json)) (id : string) :=
  delegate "Failed to fetch job" (getJob env NOW d r id).

Definition Query_jobs (env : Gateway.Env) (NOW : Z) (d : DB)
    (r : gmap string (list json)) (userId : option string) :=
  delegate "Failed to fetch jobs" (getJobs env NOW d r userId).

Definition Mutation_updateJob (env : Gateway.Env) (NOW : Z) (d : DB)
    (r : gmap string (list json)) (id : string) (input : UpdateJobArgs) :=
  delegate "Failed to update job" (updateJob env NOW d r id input).

Definition Mutation_deleteJob (env : Gateway.Env) (NOW : Z) (d : DB)
    (r : gmap string (list json)) (id : string) :=
  delegate "Failed to delete job" (deleteJob env NOW d r id).

Definition Mutation_updateUser (env : Gateway.Env) (NOW : Z) (d : DB)
    (r : gmap string (list json)) (id : string) (input : UpdateUserArgs) :=
  delegate "Failed to update user" (updateUser env NOW d r id input).

End Delegation.

(** *** A run of the relay *)

(** The messages of the progress channel handled one after the other,
    each given as the outcome of [JSON.parse]: the [pubsub.publish] calls
    of the listeners, applied to the subscriptions. *)
Definition relay_all
    (progressListeners : gmap string (Gateway.JobProgress → list (string * Gateway.JobProgress)))
    (messages : list (option Gateway.JobProgress))
    (ps : list Gateway.subscription) : list Gateway.subscription :=
  foldl (λ ps m, Gateway.publish_all (Gateway.relay_message progressListeners m) ps)
        ps messages.

(** The events among the messages, in order. *)
Definition events (messages : list (option Gateway.JobProgress))
    : list Gateway.JobProgress :=
  omap id messages.

End GatewayMore.

(** ** More sample data *)

Module SpecMore.

Import JobStore Spec.

(** The [TEXT] column on the texts the JSON decoder hands over: it
    rejects the ones with a NUL byte. *)
Definition no_nul (s : string) : option string :=
  if decide ("000"%char ∈ String.list_ascii_of_string s) then None else Some s.

(** The sample creation with the owner's id in upper case. *)
Definition sample_create_upper : CreateJobInput :=
  {| ci_UserID := "550E8400-E29B-41D4-A716-446655440001";
     ci_TargetDate := "2025-08-15"; ci_InputData := None |}.

(** An update whose error message has a NUL byte. *)
Definition nul_message : UpdateJobInput :=
  {| ui_Status := None; ui_Progress := None; ui_CurrentStep := None;
     ui_Result := None;
     ui_ErrorMessage := Some (String "000"%char "worker crashed") |}.

(** A createJob request whose target date is a number. *)
Definition untyped_input : list (string * json) :=
  [("userId", JString john); ("targetDate", JNumber (20250815 # 1)%Q)].

Definition untyped_variables : list (string * json) :=
  [("input", JObject untyped_input)].

(** An updateJob request for the finished sample job, and the row it
    leaves at time 300. *)
Definition update_fields : list (string * json) :=
  [("progress", JNumber (1 # 2)%Q);
   ("currentStep", JString "Analyzing calendar events");
   ("result", JNull)].

Definition update_variables : list (string * json) :=
  [("id", JString (ID finished_job)); ("input", JObject update_fields)].

Definition half_done_job : Job :=
  {| ID := ID finished_job; UserID := jane; Status := COMPLETED;
     Progress := (1 # 2)%Q; CurrentStep := Some "Analyzing calendar events";
     TargetDate := "2025-08-12"; InputData := None; Result := None;
     ErrorMessage := None; CreatedAt := 100; UpdatedAt := 300 |}.

(** A request that names the finished job and a new status for it, and
    a user. *)
Definition mixed_input : list (string * json) :=
  [("userId", JString john); ("targetDate", JString "2025-08-15");
   ("status", JString "PENDING")].

Definition mixed_variables : list (string * json) :=
  [("id", JString (ID finished_job)); ("input", JObject mixed_input)].

(** The world the sample request leaves when the gateway's push fails. *)
Definition sample_world_push_failed : Gateway.World :=
  {| Gateway.db := db_with sample_job;
     Gateway.redis :=
       Redis.LPUSH "commute_jobs" (backend_descriptor sample_job (Some "{}")) ∅;
     Gateway.pubsub := Gateway.pubsub sample_world |}.

(** Messages of the progress channel: an event of the new job, a message
    that does not parse, an event of the finished job. *)
Definition other_progress : Gateway.JobProgress :=
  {| Gateway.jobId := ID finished_job; Gateway.status := "COMPLETED";
     Gateway.progress := 1; Gateway.currentStep := Some "Analysis complete";
     Gateway.result_ := None; Gateway.errorMessage := None;
     Gateway.timestamp_ := Gateway.ISOString "2025-08-12T10:00:00Z" |}.

Definition sample_messages : list (option Gateway.JobProgress) :=
  [Some sample_progress; None; Some other_progress].

Definition later_messages : list (option Gateway.JobProgress) :=
  [Some other_progress; Some sample_progress].

End SpecMore.
(** * Properties *)

(** ** The text of a UUID *)

Module UUIDFacts.

Lemma hex2_digits b rest : UUID.hex2 (UUID.digits b rest) = Some (b, rest).
Proof. destruct b; reflexivity. Qed.

Lemma hyphen_digits b rest :
  UUID.hyphen (UUID.digits b rest) = UUID.digits b rest.
Proof. destruct b; reflexivity. Qed.

Lemma open_brace_digits b rest :
  UUID.open_brace (UUID.digits b rest) = (false, UUID.digits b rest).
Proof. destruct b; reflexivity. Qed.

(** The database reads the text of a UUID as that UUID. *)
Lemma uuid_in_out u : UUID.uuid_in (UUID.uuid_out u) = Some u.
Proof.
  destruct u. unfold UUID.uuid_in, UUID.uuid_out.
  cbn [UUID.b0 UUID.b1 UUID.b2 UUID.b3 UUID.b4 UUID.b5 UUID.b6 UUID.b7
       UUID.b8 UUID.b9 UUID.b10 UUID.b11 UUID.b12 UUID.b13 UUID.b14 UUID.b15].
  rewrite open_brace_digits.
  cbn [UUID.bytes Nat.odd Nat.even Nat.ltb Nat.leb andb negb].
  repeat (rewrite hex2_digits; cbn [UUID.hyphen];
          try rewrite hyphen_digits; try rewrite decide_True by done).
  reflexivity.
Qed.

Lemma cast_out u : UUID.cast (UUID.uuid_out u) = Some (UUID.uuid_out u).
Proof. unfold UUID.cast. by rewrite uuid_in_out. Qed.

(** What the driver reads back for a UUID column is text the database
    reads as itself. *)
Lemma cast_cast s c : UUID.cast s = Some c → UUID.cast c = Some c.
Proof.
  unfold UUID.cast. destruct (UUID.uuid_in s) as [u|]; [|done].
  intros Hc. inversion Hc. by rewrite uuid_in_out.
Qed.

End UUIDFacts.

(** ** The job store *)

Module JobStoreFacts.

Import JobStore Spec UUIDFacts.

Section Facts.

Variable date_in : string → option string.
Variable jsonb_in : string → option string.
Variable varchar255_in : string → option string.
Variable text_in : string → option string.

(** The database reads the labels the resolvers scan. *)
Lemma job_status_in_label s : job_status_in (JobStatus_label s) = Some s.
Proof. by destruct s. Qed.

Lemma insert_job_Ok db id u st p t data ca ua job db' :
  insert_job date_in jsonb_in db id u st p t data ca ua = Ok (job, db') →
  UUID.cast id = Some (ID job) ∧ UUID.cast u = Some (UserID job) ∧
  jobs db !! ID job = None ∧ UserID job ∈ users db ∧
  Status job = st ∧ Progress job = p ∧
  users db' = users db ∧ jobs db' = <[ID job := job]> (jobs db).
Proof.
  unfold insert_job. intros Hins.
  destruct (UUID.cast id) as [id'|]; [|done].
  destruct (UUID.cast u) as [u'|]; [|done].
  destruct (date_in t) as [d|]; [|done].
  destruct (match data with Some s => Some <$> jsonb_in s | None => Some None end)
    as [data'|]; [|done].
  destruct (jobs db !! id') eqn:Hid; [done|].
  case_decide; [|done].
  inversion Hins; subst; simpl. done.
Qed.

Lemma CreateJob_Ok uuid now db input job db' :
  CreateJob date_in jsonb_in uuid now db input = (Ok job, db') →
  jobs db !! UUID.uuid_out uuid = None ∧ UserID job ∈ users db ∧
  ID job = UUID.uuid_out uuid ∧
  UUID.cast (ci_UserID input) = Some (UserID job) ∧
  Status job = PENDING ∧ Progress job = 0%Q ∧
  users db' = users db ∧ jobs db' = <[UUID.uuid_out uuid := job]> (jobs db).
Proof.
  unfold CreateJob. intros Hc.
  destruct (insert_job _ _ _ _ _ _ _ _ _ _ _) as [[j d]|[|m]] eqn:Hi;
    inversion Hc; subst.
  apply insert_job_Ok in Hi as (Hid & Hu & Hnone & Hin & Hst & Hp & Hus & Hjobs).
  rewrite cast_out in Hid. inversion Hid as [Hid']. rewrite <- Hid' in *.
  done.
Qed.

Lemma CreateJob_Err uuid now db input e db' :
  CreateJob date_in jsonb_in uuid now db input = (Err e, db') → db' = db.
Proof.
  unfold CreateJob. intros Hc.
  destruct (insert_job _ _ _ _ _ _ _ _ _ _ _) as [[j d]|[|m]];
    by inversion Hc.
Qed.

(** The row of a job just created reads back as returned, [PENDING]. *)
Lemma CreateJob_stored uuid now db input job db' :
  CreateJob date_in jsonb_in uuid now db input = (Ok job, db') →
  GetJob db' (ID job) = Ok job ∧ Status job = PENDING.
Proof.
  intros Hc. apply CreateJob_Ok in Hc as (_ & _ & Hid & _ & Hst & _ & _ & Hj).
  unfold GetJob. by rewrite Hj, Hid, cast_out, lookup_insert_eq.
Qed.

Lemma CreateJob_acceptable uuid now db input :
  acceptable date_in jsonb_in db uuid input →
  ∃ job db', CreateJob date_in jsonb_in uuid now db input = (Ok job, db').
Proof.
  intros ((u & Hu & Hin) & [d Hd] & Hj & Hfresh).
  unfold CreateJob, insert_job. rewrite cast_out, Hu, Hd, Hfresh.
  destruct (ci_InputData input) as [s|] eqn:Hs.
  - case_decide as Hne.
    + destruct (Hj s eq_refl Hne) as [x Hx]. rewrite Hx. simpl.
      rewrite decide_True by done. eauto.
    + rewrite decide_True by done. eauto.
  - rewrite decide_True by done. eauto.
Qed.

Lemma UpdateJob_Ok now db id input job db' :
  UpdateJob jsonb_in varchar255_in text_in now db id input = (Ok job, db') →
  ∃ key old values,
    UUID.cast id = Some key ∧ jobs db !! key = Some old ∧
    bind_all jsonb_in varchar255_in text_in (update_sets input) = Some values ∧
    job = assign_all values (touch now old) ∧
    users db' = users db ∧ jobs db' = <[key := job]> (jobs db).
Proof.
  unfold UpdateJob, update_job. intros Hu.
  destruct (bind_all _ _ _ _) as [values|]; [|done].
  destruct (UUID.cast id) as [key|]; [|done].
  destruct (jobs db !! key) as [old|] eqn:Hold; [|done].
  inversion Hu; subst. by exists key, old, values.
Qed.

(** An update that fails leaves the database as it was. *)
Lemma UpdateJob_Err now db id input e db' :
  UpdateJob jsonb_in varchar255_in text_in now db id input = (Err e, db') →
  db' = db.
Proof.
  unfold UpdateJob. intros Hu.
  destruct (update_job _ _ _ _ _ _ _) as [[j d]|[|m]]; by inversion Hu.
Qed.

(** An update of an id that reads as the key of a row, with values the
    columns accept. *)
Lemma UpdateJob_eq now db id input key old values :
  UUID.cast id = Some key → jobs db !! key = Some old →
  bind_all jsonb_in varchar255_in text_in (update_sets input) = Some values →
  UpdateJob jsonb_in varchar255_in text_in now db id input =
  (Ok (assign_all values (touch now old)),
   {| users := users db;
      jobs := <[key := assign_all values (touch now old)]> (jobs db) |}).
Proof.
  intros Hid Hold Hb. unfold UpdateJob, update_job. by rewrite Hb, Hid, Hold.
Qed.

(** No call of the store removes a row. *)
Lemma UpdateJob_dom now db id input :
  dom (jobs (UpdateJob jsonb_in varchar255_in text_in now db id input).2)
  = dom (jobs db).
Proof.
  unfold UpdateJob, update_job.
  destruct (bind_all _ _ _ _) as [values|]; [|done].
  destruct (UUID.cast id) as [key|]; [|done].
  destruct (jobs db !! key) as [row|] eqn:Hid; [|done].
  simpl. rewrite dom_insert_L.
  apply subseteq_union_1_L, singleton_subseteq_l, elem_of_dom. eauto.
Qed.

Ltac cast_cases :=
  repeat match goal with
         | |- context [job_status_in ?v] => destruct (job_status_in v); simpl
         | |- context [varchar255_in ?v] => destruct (varchar255_in v); simpl
         | |- context [jsonb_in ?v] => destruct (jsonb_in v); simpl
         | |- context [text_in ?v] => destruct (text_in v); simpl
         end.

Lemma assign_all_updated now input old values :
  bind_all jsonb_in varchar255_in text_in (update_sets input) = Some values →
  updated jsonb_in varchar255_in text_in now input old
    (assign_all values (touch now old)).
Proof.
  destruct input as [[s|] [p|] [c|] [r|] [e|]];
    unfold bind_all, update_sets, updated; simpl;
    cast_cases; intros Ha; inversion Ha; subst; simpl; done.
Qed.

Lemma bind_all_accepted input :
  accepted jsonb_in varchar255_in text_in input ↔
  is_Some (bind_all jsonb_in varchar255_in text_in (update_sets input)).
Proof.
  split.
  - intros (Hs & Hc & Hr & He).
    destruct input as [[s|] [p|] [c|] [r|] [e|]]; unfold bind_all, update_sets;
      simpl in *;
      repeat match goal with
             | |- context [job_status_in ?v] =>
                 destruct (Hs v eq_refl) as [? ->]; simpl
             | |- context [varchar255_in ?v] =>
                 destruct (Hc v eq_refl) as [? ->]; simpl
             | |- context [jsonb_in ?v] =>
                 destruct (Hr v eq_refl) as [? ->]; simpl
             | |- context [text_in ?v] =>
                 destruct (He v eq_refl) as [? ->]; simpl
             end; eauto.
  - destruct input as [[s|] [p|] [c|] [r|] [e|]];
      unfold bind_all, update_sets, accepted; simpl;
      repeat match goal with
             | |- context [job_status_in ?v] =>
                 destruct (job_status_in v) eqn:?; simpl
             | |- context [varchar255_in ?v] =>
                 destruct (varchar255_in v) eqn:?; simpl
             | |- context [jsonb_in ?v] => destruct (jsonb_in v) eqn:?; simpl
             | |- context [text_in ?v] => destruct (text_in v) eqn:?; simpl
             end;
      intros [x Hx]; try discriminate Hx;
      (split; [|split; [|split]]); intros v Hv; inversion Hv; subst;
      by eexists.
Qed.

(** Every id returned by a creation of a history is a key of the table
    the history leaves. *)
Lemma run_ids_stored calls db id :
  id ∈ (run date_in jsonb_in varchar255_in text_in calls db).1 →
  id ∈ dom (jobs (run date_in jsonb_in varchar255_in text_in calls db).2).
Proof.
  unfold run. revert id.
  induction calls as [|c calls IH] using rev_ind; intros id.
  - simpl. intros Hin. by apply elem_of_nil in Hin.
  - rewrite foldl_app. simpl.
    set (st := foldl _ _ calls) in *.
    destruct c as [uuid now input|now i input]; simpl.
    + destruct (CreateJob _ _ _ _ _ _) as [[job|e] db'] eqn:HC; simpl.
      * apply CreateJob_Ok in HC as (_ & _ & Hjid & _ & _ & _ & _ & Hjobs).
        rewrite Hjobs, dom_insert_L, Hjid.
        intros Hin. apply elem_of_app in Hin as [Hin|Hin].
        -- apply elem_of_union_r. by apply IH.
        -- apply list_elem_of_singleton in Hin. subst.
           apply elem_of_union_l. by apply elem_of_singleton.
      * apply CreateJob_Err in HC. subst. apply IH.
    + rewrite UpdateJob_dom. apply IH.
Qed.

(** C4. After any history of creations and updates, a creation with
    valid input (existing owner, well-formed date and input data) and an
    unused identifier returns a job, and every job a creation returns has
    status [PENDING], progress [0] and an id that no earlier creation of
    the history returned and that is not in the table yet; the row is
    stored under that id. *)
Theorem CreateJob_pending_fresh calls db0 uuid now input :
  let st := run date_in jsonb_in varchar255_in text_in calls db0 in
  (acceptable date_in jsonb_in st.2 uuid input →
     ∃ job db', CreateJob date_in jsonb_in uuid now st.2 input = (Ok job, db')) ∧
  ∀ job db',
    CreateJob date_in jsonb_in uuid now st.2 input = (Ok job, db') →
    Status job = PENDING ∧ Progress job = 0%Q ∧
    (ID job ∉ st.1) ∧ jobs st.2 !! ID job = None ∧
    jobs db' !! ID job = Some job.
Proof.
  intros st. split; [apply CreateJob_acceptable|].
  intros job db' HC.
  apply CreateJob_Ok in HC as (Hnone & _ & Hjid & _ & Hst & Hp & _ & Hjobs).
  rewrite Hjid. repeat split; try done.
  - intros Hin. apply run_ids_stored, elem_of_dom in Hin.
    fold st in Hin. rewrite Hnone in Hin. by destruct Hin.
  - rewrite Hjobs. apply lookup_insert_eq.
Qed.

(** C7. For an existing job id (a text the database reads as the key of
    a row), an update whose supplied values the columns accept returns a
    job, and the job any update returns is the stored row with exactly
    the supplied fields overwritten, every other field (id, owner, target
    date, input data, creation time and the fields not supplied)
    unchanged and [updated_at] set to the time of the update; no other
    row changes. *)
Theorem UpdateJob_partial now db id key input old :
  UUID.cast id = Some key → jobs db !! key = Some old →
  (accepted jsonb_in varchar255_in text_in input →
     ∃ job db',
       UpdateJob jsonb_in varchar255_in text_in now db id input = (Ok job, db')) ∧
  ∀ job db',
    UpdateJob jsonb_in varchar255_in text_in now db id input = (Ok job, db') →
    updated jsonb_in varchar255_in text_in now input old job ∧
    users db' = users db ∧ jobs db' = <[key := job]> (jobs db).
Proof.
  intros Hid Hold. split.
  - intros Hacc. apply bind_all_accepted in Hacc as [values Hb].
    rewrite (UpdateJob_eq now db id input key old values Hid Hold Hb). eauto.
  - intros job db' Hu.
    apply UpdateJob_Ok in Hu
      as (key' & old' & values & Hid' & Hold' & Hb & -> & Hu & Hj).
    rewrite Hid in Hid'. inversion Hid'; subst key'.
    rewrite Hold in Hold'. inversion Hold'; subst old'.
    auto using assign_all_updated.
Qed.

(** C6 (amended). For a job whose stored status is [COMPLETED] or
    [FAILED], an update that supplies no status leaves the status as it
    is, hence terminal; an update that supplies a status overwrites the
    stored one with it, whichever of the four it is. *)
Theorem UpdateJob_status_of_terminal now db id key input old job db' :
  UUID.cast id = Some key → jobs db !! key = Some old →
  is_terminal (Status old) = true →
  UpdateJob jsonb_in varchar255_in text_in now db id input = (Ok job, db') →
  match ui_Status input with
  | None => Status job = Status old ∧ is_terminal (Status job) = true
  | Some v => job_status_in v = Some (Status job)
  end.
Proof.
  intros Hid Hold Ht Hu.
  apply UpdateJob_Ok in Hu
    as (key' & old' & values & Hid' & Hold' & Hb & -> & _ & _).
  rewrite Hid in Hid'. inversion Hid'; subst key'.
  rewrite Hold in Hold'. inversion Hold'; subst old'.
  apply (assign_all_updated now input old) in Hb
    as (_ & _ & _ & _ & _ & _ & Hs & _).
  destruct (ui_Status input); [done|]. by rewrite Hs.
Qed.

End Facts.

(** The texts of the sample identifiers are read as themselves. *)
Lemma sample_ids :
  UUID.uuid_out new_uuid = new_id ∧
  UUID.cast new_id = Some new_id ∧
  UUID.cast (ID finished_job) = Some (ID finished_job) ∧
  UUID.cast john = Some john ∧ UUID.cast jane = Some jane.
Proof. repeat split; vm_compute; reflexivity. Qed.

(** C4 on the sample history: the creation succeeds and returns a
    pending job under the new id. *)
Lemma CreateJob_pending_fresh_witness :
  ∃ job db',
    CreateJob Some Some new_uuid 300
      (run Some Some Some Some sample_history sample_db).2
      sample_create = (Ok job, db') ∧
    Status job = PENDING ∧ Progress job = 0%Q ∧
    (ID job ∉ (run Some Some Some Some sample_history sample_db).1).
Proof.
  destruct (CreateJob_pending_fresh Some Some Some Some sample_history sample_db
              new_uuid 300 sample_create) as [Hex Hall].
  destruct Hex as (job & db' & HC).
  - split; [|split; [|split]].
    + exists john. split; [by vm_compute|]. by vm_compute.
    + by eexists.
    + intros s Hs. inversion Hs.
    + by vm_compute.
  - exists job, db'. destruct (Hall job db' HC) as (Hst & Hp & Hnew & _ & _).
    exact (conj HC (conj Hst (conj Hp Hnew))).
Defined.

(** C7 on the finished sample job: progress and step are overwritten,
    the status stays. *)
Lemma UpdateJob_partial_witness :
  ∃ job db',
    UpdateJob Some Some Some 300 sample_db (ID finished_job) half_done
      = (Ok job, db') ∧
    updated Some Some Some 300 half_done finished_job job.
Proof.
  destruct (UpdateJob_partial Some Some Some 300 sample_db (ID finished_job)
              (ID finished_job) half_done finished_job) as [Hex Hall];
    [by vm_compute|by vm_compute|].
  destruct Hex as (job & db' & Hu).
  - split; [|split; [|split]]; intros v Hv; inversion Hv; by exists v.
  - exists job, db'. destruct (Hall job db' Hu) as [Hup _].
    exact (conj Hu Hup).
Defined.

(** C6 (amended) on the finished sample job, reopened. *)
Lemma UpdateJob_status_of_terminal_witness :
  ∃ job db',
    UpdateJob Some Some Some 300 sample_db (ID finished_job) reopen
      = (Ok job, db') ∧
    job_status_in "PENDING" = Some (Status job).
Proof.
  eexists _, _. split; [by vm_compute|].
  apply (UpdateJob_status_of_terminal Some Some Some 300 sample_db
           (ID finished_job) (ID finished_job) reopen finished_job _
           (UpdateJob Some Some Some 300 sample_db (ID finished_job) reopen).2).
  - by vm_compute.
  - by vm_compute.
  - reflexivity.
  - by vm_compute.
Defined.

(** C6, refuted: the update [{status: PENDING}] of the finished sample
    job succeeds and leaves the job [PENDING]. *)
Lemma UpdateJob_reopens_finished_job :
  ¬ (∀ now db id input old job db',
       jobs db !! id = Some old →
       is_terminal (Status old) = true →
       UpdateJob Some Some Some now db id input = (Ok job, db') →
       is_terminal (Status job) = true).
Proof.
  intros claim.
  destruct (UpdateJob Some Some Some 300 sample_db (ID finished_job) reopen)
    as [[job|e] db'] eqn:Hu; [|by vm_compute in Hu].
  specialize (claim 300%Z sample_db (ID finished_job) reopen finished_job job db').
  assert (Status job = PENDING) as Hst
    by (vm_compute in Hu; by inversion Hu).
  rewrite Hst in claim.
  assert (is_terminal PENDING = true) as Habs
    by (apply claim; [by vm_compute|done|done]).
  discriminate Habs.
Qed.

End JobStoreFacts.

(** ** Progress relay, subscriptions and queue length *)

Module RelayFacts.

Import JobStore Spec.

Lemma jobProgress_subscribe_eq jobId ps :
  Gateway.jobProgress_subscribe jobId ps
  = Gateway.asyncIterator (subscribed_topic jobId) ps.
Proof.
  unfold Gateway.jobProgress_subscribe, subscribed_topic.
  destruct jobId as [j|]; [|done]. by case_decide.
Qed.

Lemma received_publish_at i s trigger payload ps :
  ps !! i = Some s →
  Gateway.received i (Gateway.publish trigger payload ps) =
  if decide (Gateway.triggerName s = trigger)
  then (Gateway.inbox s ++ [payload])%list else Gateway.inbox s.
Proof.
  intros Hi. unfold Gateway.received, Gateway.publish.
  rewrite list_lookup_fmap, Hi. simpl. unfold Gateway.deliver.
  by case_decide.
Qed.

(** No per-job trigger name is the aggregate one. *)
Lemma JOB_PROGRESS_ne jobId : Gateway.JOB_PROGRESS_ jobId ≠ Gateway.JOB_PROGRESS.
Proof. unfold Gateway.JOB_PROGRESS_, Gateway.JOB_PROGRESS. simpl. discriminate. Qed.

Lemma JOB_PROGRESS_inj j1 j2 :
  Gateway.JOB_PROGRESS_ j1 = Gateway.JOB_PROGRESS_ j2 → j1 = j2.
Proof. unfold Gateway.JOB_PROGRESS_. intros Heq. by simplify_eq/=. Qed.

Lemma received_publish_all i s calls ps :
  ps !! i = Some s →
  Gateway.received i (Gateway.publish_all calls ps) =
  (Gateway.inbox s ++
   (snd <$> filter (λ c, c.1 = Gateway.triggerName s) calls))%list.
Proof.
  unfold Gateway.publish_all. revert ps s.
  induction calls as [|[t p] calls IH]; intros ps s Hi; simpl.
  - unfold Gateway.received. rewrite Hi. by rewrite app_nil_r.
  - assert (Gateway.publish t p ps !! i = Some (Gateway.deliver t p s)) as Hi'
      by (unfold Gateway.publish; by rewrite list_lookup_fmap, Hi).
    rewrite (IH _ _ Hi'). unfold Gateway.deliver. rewrite filter_cons. simpl.
    case_decide as Ht.
    + rewrite decide_True by done. simpl. by rewrite <- app_assoc.
    + rewrite decide_False by done. reflexivity.
Qed.

(** The calls the relay of [startServer] makes for one event. *)
Lemma relay_message_startServer p :
  Gateway.relay_message Gateway.startServer_listeners (Some p) =
  if decide (Gateway.jobId p = "*")
  then (Gateway.relay p ++ Gateway.relay p)%list
  else Gateway.relay p.
Proof.
  unfold Gateway.relay_message, Gateway.on_message,
    Gateway.startServer_listeners, Gateway.subscribeToAllProgress.
  rewrite lookup_insert_eq. case_decide as Hid.
  - rewrite Hid, lookup_insert_eq. reflexivity.
  - rewrite lookup_insert_ne by done. rewrite lookup_empty. reflexivity.
Qed.


(** What the relay's calls for an event of a job other than [*] deliver:
    one copy to every subscription of the aggregate trigger or of the
    job's trigger, nothing to the others. *)
Lemma relay_delivers i s p ps :
  ps !! i = Some s → Gateway.jobId p ≠ "*" →
  Gateway.received i
    (Gateway.publish_all
       (Gateway.relay_message Gateway.startServer_listeners (Some p)) ps) =
  if decide (Gateway.triggerName s = Gateway.JOB_PROGRESS ∨
             Gateway.triggerName s = Gateway.JOB_PROGRESS_ (Gateway.jobId p))
  then (Gateway.inbox s ++ [p])%list else Gateway.inbox s.
Proof.
  intros Hi Hid. rewrite (received_publish_all i s) by done.
  rewrite relay_message_startServer, decide_False by done.
  unfold Gateway.relay. rewrite !filter_cons, filter_nil. simpl.
  pose proof (JOB_PROGRESS_ne (Gateway.jobId p)) as Hne.
  repeat case_decide; simpl; try done; try (by rewrite app_nil_r); try tauto;
    try congruence.
  all: exfalso; intuition congruence.
Qed.

(** A listener registered under a key other than the one written stays
    in the registry. *)
Lemma subscribeToJobProgress_other {L : Type} (ls : gmap string L) k k' l' :
  k ≠ k' → Gateway.subscribeToJobProgress k' l' ls !! k = ls !! k.
Proof.
  intros Hne. unfold Gateway.subscribeToJobProgress. by rewrite lookup_insert_ne.
Qed.

(** After a listener is registered for a job, the calls for an event of
    that job: the new listener, then the global one. The listener that
    was registered for the job before is not among them. *)
Lemma on_message_same_key {L : Type} (ls : gmap string L) k l' p :
  Gateway.jobId p = k → k ≠ "*" →
  Gateway.on_message (Gateway.subscribeToJobProgress k l' ls) (Some p) =
  (l', p) :: match ls !! "*" with
             | Some g => [(g, p)]
             | None => []
             end.
Proof.
  intros Hp Hstar. unfold Gateway.on_message, Gateway.subscribeToJobProgress.
  rewrite Hp, lookup_insert_eq, lookup_insert_ne by done. reflexivity.
Qed.

(** C3 (amended). A new GraphQL subscription never evicts an existing
    one, on the same or another trigger: it gets an id of its own, the
    existing subscription stays, and both receive what is published under
    their triggers afterwards. In the listener registry of the Redis
    service a listener registered under another key stays and is still
    notified, but a listener registered under the same key is replaced:
    events of that job id then go to the new listener (and to the global
    one) only. *)
Theorem subscriber_kept_unless_same_listener_key :
  (∀ jobId ps i s,
     ps !! i = Some s →
     let new := (Gateway.jobProgress_subscribe jobId ps).1 in
     let ps' := (Gateway.jobProgress_subscribe jobId ps).2 in
     i ≠ new ∧ ps' !! i = Some s ∧
     ps' !! new = Some {| Gateway.triggerName := subscribed_topic jobId;
                          Gateway.inbox := [] |} ∧
     ∀ trigger p,
       Gateway.received i (Gateway.publish trigger p ps') =
         (if decide (Gateway.triggerName s = trigger)
          then (Gateway.inbox s ++ [p])%list else Gateway.inbox s) ∧
       Gateway.received new (Gateway.publish trigger p ps') =
         (if decide (subscribed_topic jobId = trigger) then [p] else [])) ∧
  (∀ (L : Type) (ls : gmap string L) k k' l l',
     ls !! k = Some l → k ≠ k' →
     Gateway.subscribeToJobProgress k' l' ls !! k = Some l ∧
     ∀ p, Gateway.jobId p = k →
          (l, p) ∈ Gateway.on_message (Gateway.subscribeToJobProgress k' l' ls)
                     (Some p)) ∧
  (∀ (L : Type) (ls : gmap string L) k l' p,
     Gateway.jobId p = k → k ≠ "*" →
     Gateway.on_message (Gateway.subscribeToJobProgress k l' ls) (Some p) =
       (l', p) :: match ls !! "*" with
                  | Some g => [(g, p)]
                  | None => []
                  end).
Proof.
  split; [|split].
  - intros jobId ps i s Hi new ps'. subst new ps'.
    rewrite jobProgress_subscribe_eq. unfold Gateway.asyncIterator. simpl.
    pose proof (lookup_lt_Some _ _ _ Hi) as Hlt.
    assert ((ps ++ [{| Gateway.triggerName := subscribed_topic jobId;
                       Gateway.inbox := [] |}])%list !! i = Some s) as Hi'
      by (by rewrite lookup_app_l).
    assert ((ps ++ [{| Gateway.triggerName := subscribed_topic jobId;
                       Gateway.inbox := [] |}])%list !! length ps
            = Some {| Gateway.triggerName := subscribed_topic jobId;
                      Gateway.inbox := [] |}) as Hnew
      by (rewrite lookup_app_r by done; by rewrite Nat.sub_diag).
    split; [lia|]. split; [done|]. split; [done|].
    intros trigger p. split.
    + by apply received_publish_at.
    + rewrite (received_publish_at _ _ _ _ _ Hnew). simpl. by case_decide.
  - intros L ls k k' l l' Hl Hne.
    assert (Gateway.subscribeToJobProgress k' l' ls !! k = Some l) as Hkept
      by (by rewrite subscribeToJobProgress_other).
    split; [done|]. intros p Hp. unfold Gateway.on_message.
    rewrite Hp, Hkept. apply elem_of_app. left. constructor.
  - intros L ls k l' p. apply on_message_same_key.
Qed.

(** C10 (amended). [getQueueLength] never raises an error. When the
    client rejects the [lLen] call (the client is closed, or the
    connection is lost while the command is in flight) it returns 0,
    which is what it returns for a server that answers and whose queue is
    empty. When the server is out of reach as the call is made and the
    client keeps the command queued, it returns nothing. *)
Theorem getQueueLength_zero_when_rejected cfg r :
  (∀ s e, Gateway.getQueueLength cfg s r ≠ Some (Err e)) ∧
  Gateway.getQueueLength cfg Gateway.answered r
    = Some (Ok (Redis.LLEN (Gateway.redisJobQueue cfg) r)) ∧
  Gateway.getQueueLength cfg Gateway.rejected r = Some (Ok 0) ∧
  Gateway.getQueueLength cfg Gateway.rejected r
    = Gateway.getQueueLength cfg Gateway.answered
        (delete (Gateway.redisJobQueue cfg) r) ∧
  Gateway.getQueueLength cfg Gateway.queued r = None.
Proof.
  unfold Gateway.getQueueLength, Gateway.lLen, Redis.LLEN, Redis.list_at.
  rewrite lookup_delete_eq. split; [|done]. by intros [| |] e.
Qed.


(** C3 (amended) on a registry with one listener, numbered 1, for the
    new job: a listener 2 for another job leaves it in place, a listener
    2 for the same job takes its place. *)
Lemma subscriber_kept_unless_same_listener_key_witness :
  (Gateway.subscribeToJobProgress (ID finished_job) 2 {[new_id := 1]} : gmap string nat)
    !! new_id = Some 1 ∧
  Gateway.on_message (Gateway.subscribeToJobProgress new_id 2 {[new_id := 1]})
    (Some sample_progress) = [(2, sample_progress)] ∧
  (Gateway.jobProgress_subscribe (Some new_id)
     [{| Gateway.triggerName := Gateway.JOB_PROGRESS_ new_id;
         Gateway.inbox := [] |}]).2 !! 0
  = Some {| Gateway.triggerName := Gateway.JOB_PROGRESS_ new_id;
            Gateway.inbox := [] |}.
Proof.
  destruct subscriber_kept_unless_same_listener_key as (Hsub & Hother & Hsame).
  split; [|split].
  - refine (proj1 (Hother nat {[new_id := 1]} new_id (ID finished_job) 1 2 _ _)).
    + apply lookup_singleton_eq.
    + discriminate.
  - refine (Hsame nat {[new_id := 1]} new_id 2 sample_progress eq_refl _).
    discriminate.
  - exact (proj1 (proj2 (Hsub (Some new_id)
                           [{| Gateway.triggerName := Gateway.JOB_PROGRESS_ new_id;
                               Gateway.inbox := [] |}] 0 _ eq_refl))).
Defined.

(** C3, refuted: a second listener for the job of the first takes its
    place in the registry, and an event of the job is handed to the
    second only. *)
Lemma second_listener_replaces_first :
  ¬ (∀ (ls : gmap string nat) k k' l l' p,
       ls !! k = Some l → Gateway.jobId p = k →
       (l, p) ∈ Gateway.on_message (Gateway.subscribeToJobProgress k' l' ls)
                  (Some p)).
Proof.
  intros claim.
  specialize (claim {[new_id := 1]} new_id new_id 1 2 sample_progress
                (lookup_singleton_eq _ _) eq_refl).
  rewrite (on_message_same_key {[new_id := 1]} new_id 2 sample_progress eq_refl)
    in claim by discriminate.
  rewrite lookup_singleton_ne in claim by discriminate.
  apply list_elem_of_singleton in claim. discriminate claim.
Qed.

(** C10, refuted: with the server out of reach as the call is made,
    [getQueueLength] does not return 0: it does not return. *)
Lemma getQueueLength_queued_stays_pending :
  ¬ (∀ cfg s r, s ≠ Gateway.answered →
                Gateway.getQueueLength cfg s r = Some (Ok 0)).
Proof.
  intros claim.
  specialize (claim Gateway.config Gateway.queued ∅).
  assert (Gateway.getQueueLength Gateway.config Gateway.queued ∅ = Some (Ok 0))
    as Habs by (by apply claim).
  discriminate Habs.
Qed.

End RelayFacts.

(** ** Submission: job row, dispatch descriptors, initial event *)

Module DispatchFacts.

Import JobStore Spec JobStoreFacts RelayFacts.

Section Facts.

Variable date_in : string → option string.
Variable jsonb_in : string → option string.

Lemma QueueJob_of_job c up r (job : Job) (inputData : json) :
  Backend.QueueJob c up r
    [("job_id", JString (ID job)); ("user_id", JString (UserID job));
     ("target_date", JString (TargetDate job)); ("input_data", inputData)] =
  match inputData with
  | JNull => Backend.Returned
      (Backend.AddJobToQueue c up r (ID job) (UserID job) (TargetDate job) None)
  | JString s => Backend.Returned
      (Backend.AddJobToQueue c up r (ID job) (UserID job) (TargetDate job) (Some s))
  | _ => Backend.Panicked
  end.
Proof. unfold Backend.QueueJob. simpl. by destruct inputData. Qed.

Lemma AddJobToQueue_lists c env r (job : Job) inputData :
  (Backend.AddJobToQueue c (Backend.redis_up env) r (ID job) (UserID job)
     (TargetDate job) inputData).2 =
  if backend_pushes c env
  then Redis.LPUSH "commute_jobs" (backend_descriptor job inputData) r
  else r.
Proof.
  unfold Backend.AddJobToQueue, backend_pushes, backend_descriptor.
  destruct (Backend.client c); [|done]. by destruct (Backend.redis_up env).
Qed.

(** The createJob branch, when it answers with a job: the creation
    succeeded and the only other effect is the backend's attempt at one
    [LPUSH]. *)
Lemma handle_createJob_created c env d r vars resp d' r' job :
  Backend.handle_createJob date_in jsonb_in c env d r vars
    = Some (Backend.Returned (resp, d', r')) →
  Backend.Data resp = Some job →
  Backend.Errors resp = [] ∧
  (∃ input, CreateJob date_in jsonb_in (Backend.uuid_New env)
              (Backend.time_Now env) d input = (Ok job, d')) ∧
  r' = if backend_pushes c env
       then Redis.LPUSH "commute_jobs"
              (backend_descriptor job (request_InputData vars)) r
       else r.
Proof.
  unfold Backend.handle_createJob, request_InputData. intros H HD.
  destruct vars as [vars|]; [|done].
  destruct (json_get "input" vars) as [[| | | | |input]|]; try done.
  destruct (json_get "userId" input) as [userID|]; [|done].
  destruct userID as [| | |userID| |]; try done.
  destruct (json_get "targetDate" input) as [[| | |targetDate| |]|]; try done.
  destruct (json_get "inputData" input) as [[| | |s| |]|]; cbn [default from_option id] in H; try done.
  all: match type of H with
       | context [CreateJob ?a ?b ?c ?d ?e ?f] =>
           destruct (CreateJob a b c d e f) as [[j|e0] d0] eqn:HC
       end;
       [|inversion H; subst; simpl in HD; done].
  all: rewrite QueueJob_of_job in H.
  all: match type of H with
       | context [Backend.AddJobToQueue ?a ?b ?c ?d ?e ?f ?g] =>
           pose proof (AddJobToQueue_lists a env c j g) as HA;
           destruct (Backend.AddJobToQueue a b c d e f g) as [err r0]
       end.
  all: inversion H; subst; simpl in HD; inversion HD; subst; simpl in HA.
  all: split; [done|]; split; [eauto|]; done.
Qed.


(** What [BackendService.createJob] amounts to when the backend answers. *)
Lemma BackendService_createJob_eq env d r input :
  Gateway.BackendService_createJob date_in jsonb_in env d r input =
  if Gateway.backend_up env then
    match CreateJob date_in jsonb_in (Backend.uuid_New (Gateway.backend_env env))
            (Backend.time_Now (Gateway.backend_env env)) d
            (gateway_create_input input) with
    | (Ok job, d') =>
        (Ok job, d',
         if Backend.redis_up (Gateway.backend_env env)
         then Redis.LPUSH "commute_jobs"
                (backend_descriptor job (Gateway.inputData input)) r
         else r)
    | (Err _, d') =>
        (Err (Gateway.Error "Backend GraphQL error: Unknown error"), d', r)
    end
  else (Err (Gateway.Error "fetch failed"), d, r).
Proof.
  unfold Gateway.BackendService_createJob, gateway_create_input.
  destruct (Gateway.backend_up env); [|done].
  unfold Backend.handle_createJob.
  destruct (Gateway.inputData input) as [s|]; simpl;
    destruct (CreateJob _ _ _ _ _ _) as [[job|e] d']; simpl; try done;
    by destruct (Backend.redis_up _).
Qed.

Lemma BackendService_createJob_Err env d r input e d' r' :
  Gateway.BackendService_createJob date_in jsonb_in env d r input = (Err e, d', r') →
  ∃ message, e = Gateway.Error message.
Proof.
  rewrite BackendService_createJob_eq.
  destruct (Gateway.backend_up env).
  - destruct (CreateJob _ _ _ _ _ _) as [[job|e0] d0]; intros H; inversion H; eauto.
  - intros H; inversion H; eauto.
Qed.

Lemma BackendService_createJob_Ok env d r input job d' r' :
  Gateway.BackendService_createJob date_in jsonb_in env d r input = (Ok job, d', r') →
  CreateJob date_in jsonb_in (Backend.uuid_New (Gateway.backend_env env))
    (Backend.time_Now (Gateway.backend_env env)) d (gateway_create_input input)
    = (Ok job, d') ∧
  r' = if Backend.redis_up (Gateway.backend_env env)
       then Redis.LPUSH "commute_jobs"
              (backend_descriptor job (Gateway.inputData input)) r
       else r.
Proof.
  rewrite BackendService_createJob_eq.
  destruct (Gateway.backend_up env); [|done].
  destruct (CreateJob _ _ _ _ _ _) as [[job0|e0] d0]; intros H; inversion H; done.
Qed.

(** The three ways [createCommuteJob] ends once its input passes the
    check of the first lines. *)
Lemma createCommuteJob_create_failed cfg env w input e d' r' :
  Gateway.userId input ≠ EmptyString → Gateway.targetDate input ≠ EmptyString →
  Gateway.BackendService_createJob date_in jsonb_in env (Gateway.db w)
    (Gateway.redis w) input = (Err e, d', r') →
  Gateway.createCommuteJob date_in jsonb_in cfg env w input =
  (Err generic_failure,
   {| Gateway.db := d'; Gateway.redis := r'; Gateway.pubsub := Gateway.pubsub w |}).
Proof.
  intros Hu Ht HB.
  destruct (BackendService_createJob_Err _ _ _ _ _ _ _ HB) as [m ->].
  unfold Gateway.createCommuteJob, Gateway.createCommuteJob_try.
  rewrite decide_False by tauto. by rewrite HB.
Qed.

Lemma createCommuteJob_push_failed cfg env w input job d' r' :
  Gateway.userId input ≠ EmptyString → Gateway.targetDate input ≠ EmptyString →
  Gateway.BackendService_createJob date_in jsonb_in env (Gateway.db w)
    (Gateway.redis w) input = (Ok job, d', r') →
  Gateway.gateway_redis_up env = false →
  Gateway.createCommuteJob date_in jsonb_in cfg env w input =
  (Err generic_failure,
   {| Gateway.db := d'; Gateway.redis := r'; Gateway.pubsub := Gateway.pubsub w |}).
Proof.
  intros Hu Ht HB Hdown.
  unfold Gateway.createCommuteJob, Gateway.createCommuteJob_try.
  rewrite decide_False by tauto. rewrite HB.
  unfold Gateway.pushJob, Gateway.lPush. by rewrite Hdown.
Qed.

Lemma createCommuteJob_Ok cfg env w input job w' :
  Gateway.createCommuteJob date_in jsonb_in cfg env w input = (Ok job, w') →
  ∃ d' r',
    Gateway.BackendService_createJob date_in jsonb_in env (Gateway.db w)
      (Gateway.redis w) input = (Ok job, d', r') ∧
    w' = {| Gateway.db := d';
            Gateway.redis := Redis.LPUSH (Gateway.redisJobQueue cfg)
                               (gateway_descriptor job) r';
            Gateway.pubsub := Gateway.publish Gateway.JOB_PROGRESS
                                (Gateway.initialProgress job (Gateway.Date_now env)) (Gateway.pubsub w) |}.
Proof.
  unfold Gateway.createCommuteJob, Gateway.createCommuteJob_try.
  case_decide; [done|].
  destruct (Gateway.BackendService_createJob _ _ _ _ _ _) as [[[j|e] d'] r'] eqn:HB.
  - unfold Gateway.pushJob, Gateway.lPush.
    destruct (Gateway.gateway_redis_up env); simpl; [|done].
    intros Heq; inversion Heq; subst. eauto.
  - by destruct e.
Qed.


Lemma list_at_LPUSH key v r :
  Redis.list_at key (Redis.LPUSH key v r) = v :: Redis.list_at key r.
Proof. unfold Redis.LPUSH, Redis.list_at at 1. by rewrite lookup_insert_eq. Qed.

Lemma list_at_LPUSH_ne key key' v r :
  key ≠ key' → Redis.list_at key' (Redis.LPUSH key v r) = Redis.list_at key' r.
Proof. intros. unfold Redis.LPUSH, Redis.list_at at 1 3. by rewrite lookup_insert_ne. Qed.

Lemma descriptors_of_cons id v l :
  Redis.descriptors_of id (v :: l) =
  (if Redis.is_descriptor_of id v then 1 else 0) + Redis.descriptors_of id l.
Proof.
  unfold Redis.descriptors_of. rewrite filter_cons.
  destruct (Redis.is_descriptor_of id v); by case_decide.
Qed.

Lemma backend_descriptor_of job data :
  Redis.is_descriptor_of (ID job) (backend_descriptor job data) = true.
Proof.
  unfold backend_descriptor, Backend.Marshal. destruct data; simpl;
    by rewrite bool_decide_eq_true_2.
Qed.

Lemma backend_descriptor_keys job data :
  json_keys (backend_descriptor job data) =
  Some (descriptor_keys ++ match data with Some _ => ["input_data"] | None => [] end)%list.
Proof. by destruct data. Qed.

Lemma gateway_descriptor_of job :
  Redis.is_descriptor_of (ID job) (gateway_descriptor job) = true.
Proof. simpl. by rewrite bool_decide_eq_true_2. Qed.

(** C1 (amended). When the job was created and the enqueue that follows
    fails, no distinct error is raised. The gateway raises the generic
    [Failed to create commute job] / [INTERNAL_ERROR], the very error it
    raises when the creation itself failed and one that does not depend
    on the job; the backend handler answers with the job and no error.
    In both cases the created row reads back with status [PENDING]. *)
Theorem dispatch_failure_is_generic_failure cfg env w input :
  Gateway.userId input ≠ EmptyString → Gateway.targetDate input ≠ EmptyString →
  (∀ job d' r',
     Gateway.BackendService_createJob date_in jsonb_in env (Gateway.db w)
       (Gateway.redis w) input = (Ok job, d', r') →
     Gateway.gateway_redis_up env = false →
     Gateway.createCommuteJob date_in jsonb_in cfg env w input =
       (Err generic_failure,
        {| Gateway.db := d'; Gateway.redis := r';
           Gateway.pubsub := Gateway.pubsub w |}) ∧
     GetJob d' (ID job) = Ok job ∧ Status job = PENDING) ∧
  (∀ e d' r',
     Gateway.BackendService_createJob date_in jsonb_in env (Gateway.db w)
       (Gateway.redis w) input = (Err e, d', r') →
     (Gateway.createCommuteJob date_in jsonb_in cfg env w input).1 =
       Err generic_failure) ∧
  (∀ c benv d r vars resp d' r' job,
     Backend.handle_createJob date_in jsonb_in c benv d r vars
       = Some (Backend.Returned (resp, d', r')) →
     Backend.Data resp = Some job →
     backend_pushes c benv = false →
     Backend.Errors resp = [] ∧ r' = r ∧
     GetJob d' (ID job) = Ok job ∧ Status job = PENDING).
Proof.
  intros Hu Ht. split; [|split].
  - intros job d' r' HB Hdown. split.
    + by apply createCommuteJob_push_failed with (job := job).
    + apply BackendService_createJob_Ok in HB as [HC _].
      by apply CreateJob_stored in HC.
  - intros e d' r' HB.
    by rewrite (createCommuteJob_create_failed cfg env w input e d' r').
  - intros c benv d r vars resp d' r' job H HD Hp.
    apply handle_createJob_created with (job := job) in H as (HE & [ci HC] & Hr);
      [|done].
    rewrite Hp in Hr. apply CreateJob_stored in HC. tauto.
Qed.

(** C2 (amended). Each front door pushes at most one descriptor per
    submission it answers with a job. The backend handler leaves the queue
    with exactly one more descriptor of the job when its [LPUSH] goes
    through and with the queue as it was when it does not; a
    [createCommuteJob] that returns a job has made exactly one push of its
    own, after the backend's handling of the request. *)
Theorem each_front_door_pushes_at_most_once :
  (∀ c env d r vars resp d' r' job,
     Backend.handle_createJob date_in jsonb_in c env d r vars
       = Some (Backend.Returned (resp, d', r')) →
     Backend.Data resp = Some job →
     r' = (if backend_pushes c env
           then Redis.LPUSH "commute_jobs"
                  (backend_descriptor job (request_InputData vars)) r
           else r) ∧
     Redis.descriptors_of (ID job) (Redis.list_at "commute_jobs" r') =
       (if backend_pushes c env then 1 else 0) +
       Redis.descriptors_of (ID job) (Redis.list_at "commute_jobs" r)) ∧
  (∀ cfg env w input job w',
     Gateway.createCommuteJob date_in jsonb_in cfg env w input = (Ok job, w') →
     ∃ d' r',
       Gateway.BackendService_createJob date_in jsonb_in env (Gateway.db w)
         (Gateway.redis w) input = (Ok job, d', r') ∧
       Gateway.redis w' =
         Redis.LPUSH (Gateway.redisJobQueue cfg) (gateway_descriptor job) r' ∧
       Redis.descriptors_of (ID job)
         (Redis.list_at (Gateway.redisJobQueue cfg) (Gateway.redis w')) =
         1 + Redis.descriptors_of (ID job)
               (Redis.list_at (Gateway.redisJobQueue cfg) r')).
Proof.
  split.
  - intros c env d r vars resp d' r' job H HD.
    apply handle_createJob_created with (job := job) in H as (_ & _ & Hr); [|done].
    split; [done|]. rewrite Hr. destruct (backend_pushes c env); [|done].
    by rewrite list_at_LPUSH, descriptors_of_cons, backend_descriptor_of.
  - intros cfg env w input job w' H.
    apply createCommuteJob_Ok in H as (d' & r' & HB & ->).
    exists d', r'. split; [done|]. split; [done|]. simpl.
    by rewrite list_at_LPUSH, descriptors_of_cons, gateway_descriptor_of.
Qed.

(** C8 (amended). The descriptor the backend pushes has the keys
    [job_id], [user_id], [target_date] and, exactly when the request
    supplied a string as input data, [input_data]; the descriptor the
    gateway pushes has the keys [job_id], [user_id], [target_date] and
    never [input_data]. *)
Theorem descriptor_keys_by_front_door :
  (∀ c env d r vars resp d' r' job,
     Backend.handle_createJob date_in jsonb_in c env d r vars
       = Some (Backend.Returned (resp, d', r')) →
     Backend.Data resp = Some job →
     backend_pushes c env = true →
     ∃ v, head (Redis.list_at "commute_jobs" r') = Some v ∧
          json_keys v =
            Some (descriptor_keys ++
                  match request_InputData vars with
                  | Some _ => ["input_data"]
                  | None => []
                  end)%list) ∧
  (∀ cfg env w input job w',
     Gateway.createCommuteJob date_in jsonb_in cfg env w input = (Ok job, w') →
     ∃ v, head (Redis.list_at (Gateway.redisJobQueue cfg) (Gateway.redis w'))
            = Some v ∧
          json_keys v = Some descriptor_keys).
Proof.
  split.
  - intros c env d r vars resp d' r' job H HD Hp.
    apply handle_createJob_created with (job := job) in H as (_ & _ & Hr); [|done].
    rewrite Hp in Hr. subst r'. rewrite list_at_LPUSH. simpl.
    eexists; split; [done|]. apply backend_descriptor_keys.
  - intros cfg env w input job w' H.
    apply createCommuteJob_Ok in H as (d' & r' & HB & ->). simpl.
    rewrite list_at_LPUSH. simpl. eauto.
Qed.

(** C9. A [createCommuteJob] that returns a job publishes the initial
    event (status [PENDING], progress 0, step [Queued for processing], the
    job's id) under the aggregate trigger and nowhere else: every
    aggregate subscription receives it, the inbox of every per-job
    subscription, that of the new job included, stays as it was. *)
Theorem initial_progress_on_aggregate_topic_only cfg env w input job w' :
  Gateway.createCommuteJob date_in jsonb_in cfg env w input = (Ok job, w') →
  let ev := Gateway.initialProgress job (Gateway.Date_now env) in
  Gateway.jobId ev = ID job ∧ Gateway.status ev = "PENDING" ∧
  Gateway.progress ev = 0%Q ∧
  Gateway.currentStep ev = Some "Queued for processing" ∧
  Gateway.pubsub w' = Gateway.publish Gateway.JOB_PROGRESS ev (Gateway.pubsub w) ∧
  ∀ i s, Gateway.pubsub w !! i = Some s →
    (Gateway.triggerName s = Gateway.JOB_PROGRESS →
       Gateway.received i (Gateway.pubsub w') = (Gateway.inbox s ++ [ev])%list) ∧
    (∀ j, Gateway.triggerName s = Gateway.JOB_PROGRESS_ j →
       Gateway.received i (Gateway.pubsub w') = Gateway.inbox s).
Proof.
  intros H ev. apply createCommuteJob_Ok in H as (d' & r' & _ & ->). simpl.
  repeat split.
  - intros Hs. rewrite (received_publish_at i s) by done. by rewrite decide_True.
  - intros j Hs. rewrite (received_publish_at i s) by done.
    rewrite decide_False; [done|]. rewrite Hs. apply JOB_PROGRESS_ne.
Qed.

End Facts.

(** What the backend makes of the sample request of the gateway. *)
Lemma sample_backend_call env :
  Gateway.backend_up env = true →
  Gateway.backend_env env = backend_env true →
  Gateway.BackendService_createJob Some Some env sample_db ∅ sample_request
  = (Ok sample_job, db_with sample_job,
     Redis.LPUSH "commute_jobs" (backend_descriptor sample_job (Some "{}")) ∅).
Proof.
  intros Hup Henv. rewrite BackendService_createJob_eq, Hup, Henv.
  vm_compute. reflexivity.
Qed.

(** What the backend handler makes of the request sent to it directly. *)
Lemma sample_handler_call up :
  Backend.handle_createJob Some Some Backend.redisClient (backend_env up)
    sample_db ∅ sample_variables
  = Some (Backend.Returned
            ({| Backend.Data := Some plain_job; Backend.Errors := [] |},
             db_with plain_job,
             if up then Redis.LPUSH "commute_jobs" (backend_descriptor plain_job None) ∅
             else ∅)).
Proof. destruct up; vm_compute; reflexivity. Qed.

(** C1 on the sample request: with the gateway's queue connection down,
    with the backend out of reach, and sent to the backend directly
    while the backend's queue connection is down. *)
Lemma dispatch_failure_is_generic_failure_witness :
  ((Gateway.createCommuteJob Some Some Gateway.config env_queue_down
      sample_world sample_request).1 = Err generic_failure ∧
   GetJob (db_with sample_job) new_id = Ok sample_job) ∧
  (Gateway.createCommuteJob Some Some Gateway.config env_backend_down
     sample_world sample_request).1 = Err generic_failure ∧
  GetJob (db_with plain_job) new_id = Ok plain_job.
Proof.
  destruct (dispatch_failure_is_generic_failure Some Some Gateway.config
              env_queue_down sample_world sample_request)
    as (Hpush & _ & Hbackend); [by vm_compute|by vm_compute|].
  destruct (dispatch_failure_is_generic_failure Some Some Gateway.config
              env_backend_down sample_world sample_request)
    as (_ & Hcreate & _); [by vm_compute|by vm_compute|].
  split; [|split].
  - destruct (Hpush sample_job _ _
                (sample_backend_call env_queue_down eq_refl eq_refl) eq_refl)
      as (Hres & Hget & Hst).
    split; [by rewrite Hres|exact Hget].
  - exact (Hcreate (Gateway.Error "fetch failed") sample_db ∅ eq_refl).
  - destruct (Hbackend _ _ _ _ _ _ _ _ plain_job (sample_handler_call false)
                eq_refl eq_refl) as (_ & _ & Hget & _).
    exact Hget.
Defined.

(** The generic error does not carry the id of the sample job. *)
Remark generic_failure_carries_no_id : carries new_id generic_failure = false.
Proof. vm_compute. reflexivity. Qed.

(** C1, refuted: on the sample request the error raised after a failed
    enqueue is the error raised when the backend cannot be reached, so a
    failed dispatch cannot be told from a failed creation. *)
Lemma dispatch_failure_not_distinct :
  ¬ (∀ cfg env w input job d' r',
       Gateway.BackendService_createJob Some Some env (Gateway.db w)
         (Gateway.redis w) input = (Ok job, d', r') →
       Gateway.gateway_redis_up env = false →
       ∃ e w',
         Gateway.createCommuteJob Some Some cfg env w input = (Err e, w') ∧
         carries (ID job) e = true ∧
         ∀ env', Gateway.backend_up env' = false →
                 (Gateway.createCommuteJob Some Some cfg env' w input).1 ≠ Err e).
Proof.
  intros claim.
  destruct (claim Gateway.config env_queue_down sample_world sample_request
              sample_job _ _ (sample_backend_call env_queue_down eq_refl eq_refl)
              eq_refl) as (e & w' & Hres & _ & Hdistinct).
  apply (Hdistinct env_backend_down eq_refl).
  assert ((Gateway.createCommuteJob Some Some Gateway.config env_queue_down
             sample_world sample_request).1 = Err generic_failure) as Hgen
    by (vm_compute; reflexivity).
  rewrite Hres in Hgen. simpl in Hgen. injection Hgen as ->.
  vm_compute. reflexivity.
Qed.

(** What [createCommuteJob] makes of the sample request when everything
    answers. *)
Lemma sample_gateway_call :
  Gateway.createCommuteJob Some Some Gateway.config env_up sample_world
    sample_request = (Ok sample_job, sample_world_after).
Proof. vm_compute. reflexivity. Qed.

(** C2 on a request sent to the backend while its queue connection is
    down and while it is up, and on the sample request of the gateway. *)
Lemma each_front_door_pushes_at_most_once_witness :
  Redis.descriptors_of new_id (Redis.list_at "commute_jobs" ∅) = 0 ∧
  Redis.descriptors_of new_id
    (Redis.list_at "commute_jobs"
       (Redis.LPUSH "commute_jobs" (backend_descriptor plain_job None) ∅)) = 1 ∧
  ∃ r', Gateway.redis sample_world_after
        = Redis.LPUSH "commute_jobs" (gateway_descriptor sample_job) r'.
Proof.
  destruct (each_front_door_pushes_at_most_once Some Some) as [Hbackend Hgateway].
  split; [|split].
  - destruct (Hbackend _ _ _ _ _ _ _ _ plain_job (sample_handler_call false) eq_refl)
      as [_ Hcount].
    exact Hcount.
  - destruct (Hbackend _ _ _ _ _ _ _ _ plain_job (sample_handler_call true) eq_refl)
      as [_ Hcount].
    exact Hcount.
  - destruct (Hgateway _ _ _ _ _ _ sample_gateway_call) as (d' & r' & _ & Hr & _).
    exists r'. exact Hr.
Defined.

(** C2, refuted: with the backend's queue connection down the handler
    answers the sample request with the created job and no error, and the
    queue holds no descriptor of the job. *)
Lemma submission_without_descriptor :
  ¬ (∀ c env d r vars resp d' r' job,
       Backend.handle_createJob Some Some c env d r vars
         = Some (Backend.Returned (resp, d', r')) →
       Backend.Data resp = Some job → Backend.Errors resp = [] →
       Redis.descriptors_of (ID job) (Redis.list_at "commute_jobs" r') =
         1 + Redis.descriptors_of (ID job) (Redis.list_at "commute_jobs" r)).
Proof.
  intros claim.
  specialize (claim _ _ _ _ _ _ _ _ plain_job (sample_handler_call false)
                eq_refl eq_refl).
  vm_compute in claim. discriminate claim.
Qed.

(** A remark on C2: through the gateway the queue ends up with two
    descriptors of the one job, the backend's and the gateway's. *)
Remark gateway_submission_queues_two_descriptors :
  Redis.descriptors_of new_id
    (Redis.list_at "commute_jobs" (Gateway.redis sample_world_after)) = 2.
Proof. vm_compute. reflexivity. Qed.

Lemma sample_handler_call_data :
  Backend.handle_createJob Some Some Backend.redisClient (backend_env true)
    sample_db ∅ sample_variables_data
  = Some (Backend.Returned
            ({| Backend.Data := Some sample_job; Backend.Errors := [] |},
             db_with sample_job,
             Redis.LPUSH "commute_jobs"
               (backend_descriptor sample_job (Some "{}")) ∅)).
Proof. vm_compute. reflexivity. Qed.

(** C8 on the sample requests: the backend's descriptor with and without
    input data, and the gateway's descriptor for a request with input
    data. *)
Lemma descriptor_keys_by_front_door_witness :
  (∃ v, head (Redis.list_at "commute_jobs"
                (Redis.LPUSH "commute_jobs"
                   (backend_descriptor sample_job (Some "{}")) ∅)) = Some v ∧
        json_keys v = Some ["job_id"; "user_id"; "target_date"; "input_data"]) ∧
  (∃ v, head (Redis.list_at "commute_jobs" (Gateway.redis sample_world_after))
          = Some v ∧
        json_keys v = Some ["job_id"; "user_id"; "target_date"]).
Proof.
  destruct (descriptor_keys_by_front_door Some Some) as [Hbackend Hgateway].
  split.
  - exact (Hbackend _ _ _ _ _ _ _ _ sample_job sample_handler_call_data
             eq_refl eq_refl).
  - exact (Hgateway _ _ _ _ _ _ sample_gateway_call).
Defined.

(** C8, refuted: the sample request carries input data, and the
    descriptor the gateway pushes for it has no [input_data] key. *)
Lemma gateway_descriptor_without_input_data :
  ¬ (∀ cfg env w input job w' s,
       Gateway.createCommuteJob Some Some cfg env w input = (Ok job, w') →
       Gateway.inputData input = Some s →
       ∃ v ks,
         head (Redis.list_at (Gateway.redisJobQueue cfg) (Gateway.redis w'))
           = Some v ∧
         json_keys v = Some ks ∧ "input_data" ∈ ks).
Proof.
  intros claim.
  destruct (claim _ _ _ _ _ _ "{}" sample_gateway_call eq_refl)
    as (v & ks & Hhead & Hkeys & Hin).
  change (Gateway.redisJobQueue Gateway.config) with "commute_jobs" in Hhead.
  unfold sample_world_after in Hhead. simpl Gateway.redis in Hhead.
  rewrite list_at_LPUSH in Hhead. simpl in Hhead. injection Hhead as <-.
  simpl in Hkeys. injection Hkeys as <-.
  repeat (apply elem_of_cons in Hin as [Hin|Hin]; [discriminate Hin|]).
  by apply elem_of_nil in Hin.
Qed.

(** C9 on the sample request: the aggregate subscriber 0 receives the
    initial event, the subscriber 1 of the new job's topic nothing. *)
Lemma initial_progress_on_aggregate_topic_only_witness :
  Gateway.received 0 (Gateway.pubsub sample_world_after)
    = [Gateway.initialProgress sample_job 301] ∧
  Gateway.received 1 (Gateway.pubsub sample_world_after) = [].
Proof.
  destruct (initial_progress_on_aggregate_topic_only Some Some Gateway.config
              env_up sample_world sample_request sample_job sample_world_after
              sample_gateway_call) as (_ & _ & _ & _ & _ & Hsubs).
  split.
  - destruct (Hsubs 0 _ eq_refl) as [Haggregate _]. exact (Haggregate eq_refl).
  - destruct (Hsubs 1 _ eq_refl) as [_ Hjob]. exact (Hjob new_id eq_refl).
Defined.

End DispatchFacts.

(** * Further properties *)

(** ** The job store: failures, invariants, listing, deletion *)

Module StoreExtras.

Import JobStore Spec SpecMore JobStoreMore UUIDFacts JobStoreFacts.

(** X6. [DeleteJob] of an id the database rejects is an error and
    changes nothing. Of any other id it answers whether the UUID the id
    is read as had a row; afterwards that UUID has none, every other row
    and the users are as before, and deleting again answers [false] and
    changes nothing. Two ids read as the same UUID delete alike. *)
Theorem DeleteJob_removes_the_row db id :
  match UUID.cast id with
  | None =>
      (∃ e, DeleteJob db id = (Err e, db)) ∧
      ∃ e, GetJob db id = Err e ∧ e ≠ "job not found"
  | Some key =>
      (DeleteJob db id).1 = Ok (bool_decide (is_Some (jobs db !! key))) ∧
      GetJob (DeleteJob db id).2 id = Err "job not found" ∧
      (∀ k, k ≠ key → jobs (DeleteJob db id).2 !! k = jobs db !! k) ∧
      users (DeleteJob db id).2 = users db ∧
      DeleteJob (DeleteJob db id).2 id = (Ok false, (DeleteJob db id).2)
  end ∧
  ∀ id', UUID.cast id' = UUID.cast id →
         is_Some (UUID.cast id) → DeleteJob db id' = DeleteJob db id.
Proof.
  split.
  - unfold DeleteJob, GetJob. destruct (UUID.cast id) as [key|] eqn:Hid.
    + destruct (jobs db !! key) as [j|] eqn:Hkey; simpl.
      * rewrite lookup_delete_eq. repeat split; try done.
        intros k Hk. by rewrite lookup_delete_ne.
      * rewrite Hkey. repeat split; done.
    + split; [by eexists|]. eexists. split; [done|]. discriminate.
  - intros id' Heq _. unfold DeleteJob. by rewrite Heq.
Qed.

Lemma newer_first_total : Total newer_first.
Proof. intros a b. unfold newer_first. lia. Qed.

Lemma newer_first_trans : Transitive newer_first.
Proof. intros a b c. unfold newer_first. lia. Qed.

Lemma elem_of_rows db j : j ∈ rows db ↔ ∃ k, jobs db !! k = Some j.
Proof.
  unfold rows. rewrite list_elem_of_fmap. split.
  - intros ([k j'] & -> & Hin). exists k. by apply elem_of_map_to_list.
  - intros [k Hk]. exists (k, j). split; [done|]. by apply elem_of_map_to_list.
Qed.

(** X7. [Jobs] for an owner id the database rejects is an error. For
    any other owner id it lists the rows of the table owned by the UUID
    the id is read as, and without an owner all rows: each row once,
    newest first. *)
Theorem Jobs_lists_rows_newest_first db userID :
  match userID with
  | None =>
      ∃ l, Jobs db None = Ok l ∧ l ≡ₚ rows db ∧
           length l = size (jobs db) ∧
           (∀ j, j ∈ l ↔ ∃ k, jobs db !! k = Some j) ∧
           StronglySorted newer_first l
  | Some u =>
      match UUID.cast u with
      | None => ∃ e, Jobs db (Some u) = Err e
      | Some owner =>
          ∃ l, Jobs db (Some u) = Ok l ∧
               l ≡ₚ filter (λ j, UserID j = owner) (rows db) ∧
               (∀ j, j ∈ l ↔ (∃ k, jobs db !! k = Some j) ∧ UserID j = owner) ∧
               StronglySorted newer_first l
      end
  end.
Proof.
  pose proof newer_first_total. pose proof newer_first_trans.
  unfold Jobs. destruct userID as [u|].
  - destruct (UUID.cast u) as [owner|]; [|by eexists].
    eexists. split; [done|]. split; [apply merge_sort_Permutation|].
    split; [|apply StronglySorted_merge_sort; apply _].
    intros j. rewrite merge_sort_Permutation, list_elem_of_filter, elem_of_rows.
    tauto.
  - eexists. split; [done|]. split; [apply merge_sort_Permutation|].
    split; [|split; [|apply StronglySorted_merge_sort; apply _]].
    + rewrite merge_sort_Permutation. unfold rows.
      by rewrite length_fmap, length_map_to_list.
    + intros j. by rewrite merge_sort_Permutation, elem_of_rows.
Qed.

Section Creation.

Variable date_in : string → option string.
Variable jsonb_in : string → option string.

Lemma CreateJob_Ok_acceptable uuid now db input job db' :
  CreateJob date_in jsonb_in uuid now db input = (Ok job, db') →
  acceptable date_in jsonb_in db uuid input ∧
  date_in (ci_TargetDate input) = Some (TargetDate job) ∧
  CreatedAt job = now ∧ UpdatedAt job = now ∧
  CurrentStep job = None ∧ Result job = None ∧ ErrorMessage job = None ∧
  match ci_InputData input with
  | Some s => if decide (s = EmptyString) then InputData job = None
              else Some <$> jsonb_in s = Some (InputData job)
  | None => InputData job = None
  end.
Proof.
  unfold CreateJob, insert_job, acceptable. rewrite cast_out. intros Hc.
  destruct (UUID.cast (ci_UserID input)) as [u|] eqn:Hu; [|done].
  destruct (date_in (ci_TargetDate input)) as [d|] eqn:Hd; [|done].
  destruct (ci_InputData input) as [s|] eqn:Hs.
  - destruct (decide (s ≠ EmptyString)) as [Hne|He].
    + destruct (jsonb_in s) as [x|] eqn:Hx; simpl in Hc; [|done].
      destruct (jobs db !! UUID.uuid_out uuid) eqn:Hid; [done|].
      case_decide as Hin; [|done]. inversion Hc; subst; simpl.
      rewrite decide_False by done.
      split; [|done]. split; [by exists u|]. split; [by eexists|].
      split; [|done]. intros s' Hs' _. inversion Hs'; subst. by eexists.
    + destruct (jobs db !! UUID.uuid_out uuid) eqn:Hid; [done|].
      case_decide as Hin; [|done]. inversion Hc; subst; simpl.
      assert (s = EmptyString) as ->
        by (by destruct (decide (s = EmptyString)); [|tauto]).
      rewrite decide_True by done.
      split; [|done]. split; [by exists u|]. split; [by eexists|].
      split; [|done]. intros s' Hs' Hne. by inversion Hs'; subst.
  - destruct (jobs db !! UUID.uuid_out uuid) eqn:Hid; [done|].
    case_decide as Hin; [|done]. inversion Hc; subst; simpl.
    split; [|done]. split; [by exists u|]. split; [by eexists|].
    split; [|done]. intros s' Hs'. discriminate Hs'.
Qed.

(** X1. A creation does not depend on the spelling of the owner's id:
    two inputs whose owner ids the database reads as the same UUID, and
    that agree otherwise, give the same result, and the job returned
    carries the owner id and its own id as the database spells them. A
    creation returns a job exactly when the database accepts it (the
    owner exists, the date and the non-empty input data are well-formed,
    the identifier drawn is unused); a creation that fails leaves the
    database as it was. *)
Theorem CreateJob_succeeds_iff_acceptable uuid now db input :
  ((∃ job db', CreateJob date_in jsonb_in uuid now db input = (Ok job, db'))
   ↔ acceptable date_in jsonb_in db uuid input) ∧
  (∀ job db',
     CreateJob date_in jsonb_in uuid now db input = (Ok job, db') →
     UUID.cast (ci_UserID input) = Some (UserID job) ∧
     UUID.cast (UserID job) = Some (UserID job) ∧
     ID job = UUID.uuid_out uuid ∧ UUID.cast (ID job) = Some (ID job)) ∧
  (∀ e db',
     CreateJob date_in jsonb_in uuid now db input = (Err e, db') → db' = db) ∧
  (∀ input',
     UUID.cast (ci_UserID input') = UUID.cast (ci_UserID input) →
     ci_TargetDate input' = ci_TargetDate input →
     ci_InputData input' = ci_InputData input →
     CreateJob date_in jsonb_in uuid now db input'
     = CreateJob date_in jsonb_in uuid now db input).
Proof.
  split; [split|split; [|split]].
  - intros (job & db' & Hc). by apply CreateJob_Ok_acceptable in Hc as [? _].
  - apply CreateJob_acceptable.
  - intros job db' Hc.
    apply CreateJob_Ok in Hc as (_ & _ & Hid & Hu & _).
    split; [done|]. split; [by apply cast_cast in Hu|]. split; [done|].
    rewrite Hid. apply cast_out.
  - intros e db'. apply CreateJob_Err.
  - intros input' Hu Ht Hd. unfold CreateJob, insert_job.
    by rewrite Hu, Ht, Hd.
Qed.

End Creation.

Section Facts.

Variable date_in : string → option string.
Variable jsonb_in : string → option string.
Variable varchar255_in : string → option string.
Variable text_in : string → option string.

(** X2. An update fails in three ways only, and each leaves the
    database as it was: with the resolver's [error updating job] when a
    supplied value is rejected by its column or the id is not the text of
    a UUID, whether or not a row matches; and with [job not found] when
    the values are accepted and the id is read as a UUID without a
    row. *)
Theorem UpdateJob_fails_only_when now db id input :
  (¬ accepted jsonb_in varchar255_in text_in input ∨ UUID.cast id = None →
   ∃ msg, UpdateJob jsonb_in varchar255_in text_in now db id input
          = (Err ("error updating job: " ++ msg), db)) ∧
  (accepted jsonb_in varchar255_in text_in input →
   ∀ key, UUID.cast id = Some key → jobs db !! key = None →
          UpdateJob jsonb_in varchar255_in text_in now db id input
          = (Err "job not found", db)) ∧
  ∀ e db',
    UpdateJob jsonb_in varchar255_in text_in now db id input = (Err e, db') →
    db' = db ∧
    (¬ accepted jsonb_in varchar255_in text_in input ∨ UUID.cast id = None ∨
     ∃ key, UUID.cast id = Some key ∧ jobs db !! key = None).
Proof.
  split; [|split].
  - intros Hbad. unfold UpdateJob, update_job.
    destruct (bind_all _ _ _ _) as [values|] eqn:Hb; [|by eexists].
    destruct Hbad as [Hacc|Hid].
    + destruct Hacc. apply bind_all_accepted. by eexists.
    + rewrite Hid. by eexists.
  - intros Hacc key Hid Hkey. apply bind_all_accepted in Hacc as [values Hb].
    unfold UpdateJob, update_job. by rewrite Hb, Hid, Hkey.
  - intros e db' Hu. split; [by apply UpdateJob_Err in Hu|].
    unfold UpdateJob, update_job in Hu.
    destruct (bind_all _ _ _ _) as [values|] eqn:Hb.
    + destruct (UUID.cast id) as [key|] eqn:Hid; [|by auto].
      destruct (jobs db !! key) as [old|] eqn:Hkey; [done|].
      right. right. by exists key.
    + left. intros Hacc. apply bind_all_accepted in Hacc as [values Hv].
      rewrite Hv in Hb. discriminate Hb.
Qed.

(** What an update keeps of a row. *)
Lemma assign_all_keeps now input old values :
  bind_all jsonb_in varchar255_in text_in (update_sets input) = Some values →
  same_identity old (assign_all values (touch now old)).
Proof.
  intros Hb. apply (assign_all_updated _ _ _ now input old) in Hb.
  destruct Hb as (? & ? & ? & ? & ? & _). done.
Qed.

Lemma step_keeps_rows st c k j :
  jobs st.2 !! k = Some j →
  ∃ j', jobs (step date_in jsonb_in varchar255_in text_in st c).2 !! k = Some j' ∧
        same_identity j j'.
Proof.
  intros Hk. destruct c as [uuid now input|now id input]; simpl.
  - destruct (CreateJob _ _ _ _ _ _) as [[job|e] db'] eqn:Hc; simpl.
    + apply CreateJob_Ok in Hc as (Hfresh & _ & _ & _ & _ & _ & _ & Hjobs).
      exists j. rewrite Hjobs, lookup_insert_ne; [done|]. congruence.
    + apply CreateJob_Err in Hc. subst. by exists j.
  - destruct (UpdateJob _ _ _ _ _ _ _) as [[job|e] db'] eqn:Hu; simpl.
    + apply UpdateJob_Ok in Hu
        as (key & old & values & _ & Hold & Hb & -> & _ & Hjobs).
      rewrite Hjobs. destruct (decide (key = k)) as [->|Hne].
      * rewrite lookup_insert_eq. eexists. split; [done|].
        rewrite Hk in Hold. inversion Hold; subst.
        by apply (assign_all_keeps now input).
      * rewrite lookup_insert_ne by done. by exists j.
    + apply UpdateJob_Err in Hu. subst. by exists j.
Qed.

(** X3. Whatever creations and updates follow, a row stays in the table
    and keeps its id, owner, target date, input data and creation
    time. *)
Theorem history_keeps_rows calls db k j :
  jobs db !! k = Some j →
  ∃ j', jobs (run date_in jsonb_in varchar255_in text_in calls db).2 !! k = Some j' ∧
        ID j' = ID j ∧ UserID j' = UserID j ∧ TargetDate j' = TargetDate j ∧
        InputData j' = InputData j ∧ CreatedAt j' = CreatedAt j.
Proof.
  intros Hk. unfold run.
  induction calls as [|c calls IH] using rev_ind.
  - exists j. by simpl.
  - rewrite foldl_app. simpl. destruct IH as (j1 & Hj1 & Hsame).
    destruct (step_keeps_rows (foldl (step date_in jsonb_in varchar255_in text_in)
                                 ([], db) calls) c k j1 Hj1)
      as (j2 & Hj2 & Hsame2).
    exists j2. split; [done|].
    destruct Hsame as (? & ? & ? & ? & ?). destruct Hsame2 as (? & ? & ? & ? & ?).
    repeat split; congruence.
Qed.

Lemma CreateJob_consistent uuid now db input job db' :
  consistent db →
  CreateJob date_in jsonb_in uuid now db input = (Ok job, db') → consistent db'.
Proof.
  intros Hdb Hc.
  apply CreateJob_Ok in Hc as (_ & Hin & Hid & _ & _ & _ & Husers & Hjobs).
  intros k j. rewrite Hjobs, Husers.
  destruct (decide (UUID.uuid_out uuid = k)) as [<-|Hne].
  - rewrite lookup_insert_eq. intros Hj. inversion Hj; subst. done.
  - rewrite lookup_insert_ne by done. apply Hdb.
Qed.

Lemma UpdateJob_consistent now db id input :
  consistent db →
  consistent (UpdateJob jsonb_in varchar255_in text_in now db id input).2.
Proof.
  intros Hdb.
  destruct (UpdateJob _ _ _ _ _ _ _) as [[job|e] db'] eqn:Hu; simpl.
  - apply UpdateJob_Ok in Hu
      as (key & old & values & _ & Hold & Hb & -> & Husers & Hjobs).
    apply (assign_all_keeps now input old) in Hb as (Hid & Huser & _).
    intros k j. rewrite Hjobs, Husers. destruct (decide (key = k)) as [->|Hne].
    + rewrite lookup_insert_eq. intros Hj. inversion Hj; subst.
      rewrite Hid, Huser. by apply Hdb.
    + rewrite lookup_insert_ne by done. apply Hdb.
  - apply UpdateJob_Err in Hu. by subst.
Qed.

(** X4. Creations, updates and deletions keep the table consistent: if
    every row is stored under its own id and owned by an existing user
    before, so it is after any history of creations and updates, and
    after a deletion. *)
Theorem store_stays_consistent calls db id :
  consistent db →
  consistent (run date_in jsonb_in varchar255_in text_in calls db).2 ∧
  consistent (DeleteJob db id).2.
Proof.
  intros Hdb. split.
  - unfold run. induction calls as [|c calls IH] using rev_ind; [done|].
    rewrite foldl_app. simpl.
    destruct c as [uuid now input|now i input]; simpl.
    + destruct (CreateJob _ _ _ _ _ _) as [[job|e] db'] eqn:Hc; simpl.
      * by eapply CreateJob_consistent.
      * apply CreateJob_Err in Hc. by subst.
    + by apply UpdateJob_consistent.
  - unfold DeleteJob. destruct (UUID.cast id) as [key|]; [|done].
    destruct (jobs db !! key) as [row|] eqn:Hid; simpl; [|done].
    intros k j Hj. simpl in Hj. apply lookup_delete_Some in Hj as [_ Hj].
    by apply Hdb.
Qed.

(** X5. Of two progress updates of a job the later one wins, whichever
    value is larger: both succeed, and the row then reads back with the
    second value and the time of the second update, everything else as
    before the two. *)
Theorem UpdateJob_last_write_wins now1 now2 db id key p1 p2 old :
  UUID.cast id = Some key → jobs db !! key = Some old →
  ∃ j1 db1 j2 db2,
    UpdateJob jsonb_in varchar255_in text_in now1 db id (progress_only p1)
      = (Ok j1, db1) ∧
    UpdateJob jsonb_in varchar255_in text_in now2 db1 id (progress_only p2)
      = (Ok j2, db2) ∧
    GetJob db2 id = Ok j2 ∧
    j2 = {| ID := ID old; UserID := UserID old; Status := Status old;
            Progress := p2; CurrentStep := CurrentStep old;
            TargetDate := TargetDate old; InputData := InputData old;
            Result := Result old; ErrorMessage := ErrorMessage old;
            CreatedAt := CreatedAt old; UpdatedAt := now2 |}.
Proof.
  intros Hid Hold. unfold UpdateJob, update_job, GetJob. simpl.
  rewrite Hid, Hold.
  eexists _, _, _, _. split; [reflexivity|]. simpl. rewrite lookup_insert_eq.
  simpl. split; [reflexivity|]. simpl. rewrite lookup_insert_eq. done.
Qed.

(** X8. What a creation or an update returns is what the store reads
    back: the job is found under its id, and a created job is listed
    among the jobs of its owner and among all jobs. *)
Theorem store_reads_its_writes uuid now db id input uinput :
  (∀ job db',
     CreateJob date_in jsonb_in uuid now db input = (Ok job, db') →
     GetJob db' (ID job) = Ok job ∧
     (∃ l, Jobs db' (Some (ci_UserID input)) = Ok l ∧ job ∈ l) ∧
     (∃ l, Jobs db' None = Ok l ∧ job ∈ l)) ∧
  (∀ job db',
     UpdateJob jsonb_in varchar255_in text_in now db id uinput = (Ok job, db') →
     GetJob db' id = Ok job ∧ ∃ l, Jobs db' None = Ok l ∧ job ∈ l).
Proof.
  split.
  - intros job db' Hc. pose proof (CreateJob_stored _ _ _ _ _ _ _ _ Hc) as [Hget _].
    apply CreateJob_Ok in Hc as (_ & _ & Hid & Huser & _ & _ & _ & Hjobs).
    assert (jobs db' !! UUID.uuid_out uuid = Some job) as Hrow
      by (rewrite Hjobs; apply lookup_insert_eq).
    split; [done|]. unfold Jobs. rewrite Huser.
    split; eexists; (split; [done|]); rewrite merge_sort_Permutation.
    + apply list_elem_of_filter. split; [done|]. apply elem_of_rows. eauto.
    + apply elem_of_rows. eauto.
  - intros job db' Hu.
    apply UpdateJob_Ok in Hu as (key & old & values & Hid & _ & _ & _ & _ & Hjobs).
    assert (jobs db' !! key = Some job) as Hrow
      by (rewrite Hjobs; apply lookup_insert_eq).
    unfold GetJob. rewrite Hid, Hrow. split; [done|]. eexists. split; [done|].
    rewrite merge_sort_Permutation. apply elem_of_rows. eauto.
Qed.

End Facts.

(** The sample database is consistent. *)
Lemma sample_db_consistent : consistent sample_db.
Proof.
  intros k j Hk. unfold sample_db in Hk. simpl in Hk.
  apply lookup_singleton_Some in Hk as [<- <-]. split; [done|]. set_solver.
Qed.

(** What the store makes of the sample creation. *)
Lemma sample_creation :
  CreateJob Some Some new_uuid 300 sample_db sample_create
  = (Ok plain_job, db_with plain_job).
Proof. vm_compute. reflexivity. Qed.

(** X1 on the sample creation with the owner's id in upper case: it
    succeeds as with the id in lower case. *)
Lemma CreateJob_succeeds_iff_acceptable_witness :
  CreateJob Some Some new_uuid 300 sample_db sample_create_upper
  = (Ok plain_job, db_with plain_job).
Proof.
  rewrite (proj2 (proj2 (proj2 (CreateJob_succeeds_iff_acceptable Some Some
                                  new_uuid 300 sample_db sample_create)))
             sample_create_upper).
  - exact sample_creation.
  - vm_compute. reflexivity.
  - reflexivity.
  - reflexivity.
Defined.

(** X6 on the sample database: the finished job named in upper case,
    and a text that is no UUID. *)
Lemma DeleteJob_removes_the_row_witness :
  ((DeleteJob sample_db "650E8400-E29B-41D4-A716-446655440002").1
   = Ok (bool_decide (is_Some (jobs sample_db !! ID finished_job))) ∧
   GetJob (DeleteJob sample_db "650E8400-E29B-41D4-A716-446655440002").2
     "650E8400-E29B-41D4-A716-446655440002" = Err "job not found") ∧
  ∃ e, DeleteJob sample_db "not-a-uuid" = (Err e, sample_db).
Proof.
  pose proof (proj1 (DeleteJob_removes_the_row sample_db
                       "650E8400-E29B-41D4-A716-446655440002")) as Hupper.
  pose proof (proj1 (DeleteJob_removes_the_row sample_db "not-a-uuid")) as Hbad.
  change (UUID.cast "650E8400-E29B-41D4-A716-446655440002")
    with (Some (ID finished_job)) in Hupper.
  change (UUID.cast "not-a-uuid") with (@None string) in Hbad.
  destruct Hupper as (Hanswer & Hgone & _). destruct Hbad as [Herr _].
  exact (conj (conj Hanswer Hgone) Herr).
Defined.

(** X7 on the sample database: the jobs of jane, named in upper case,
    and of a text that is no UUID. *)
Lemma Jobs_lists_rows_newest_first_witness :
  (∃ l, Jobs sample_db (Some "550E8400-E29B-41D4-A716-446655440002") = Ok l ∧
        l ≡ₚ filter (λ j, UserID j = jane) (rows sample_db)) ∧
  ∃ e, Jobs sample_db (Some "not-a-uuid") = Err e.
Proof.
  pose proof (Jobs_lists_rows_newest_first sample_db
                (Some "550E8400-E29B-41D4-A716-446655440002")) as Hupper.
  pose proof (Jobs_lists_rows_newest_first sample_db (Some "not-a-uuid")) as Hbad.
  change (UUID.cast "550E8400-E29B-41D4-A716-446655440002")
    with (Some jane) in Hupper.
  change (UUID.cast "not-a-uuid") with (@None string) in Hbad.
  destruct Hupper as (l & Hl & Hperm & _).
  exact (conj (ex_intro _ l (conj Hl Hperm)) Hbad).
Defined.

(** X2 on updates of the sample database: of an id without a row, of a
    text that is no UUID, and with an error message the column
    rejects. *)
Lemma UpdateJob_fails_only_when_witness :
  UpdateJob Some Some no_nul 300 sample_db new_id half_done
  = (Err "job not found", sample_db) ∧
  (∃ msg, UpdateJob Some Some no_nul 300 sample_db "not-a-uuid" half_done
          = (Err ("error updating job: " ++ msg), sample_db)) ∧
  (∃ msg, UpdateJob Some Some no_nul 300 sample_db (ID finished_job) nul_message
          = (Err ("error updating job: " ++ msg), sample_db)).
Proof.
  split; [|split].
  - apply (proj1 (proj2 (UpdateJob_fails_only_when Some Some no_nul 300 sample_db
                           new_id half_done))) with (key := new_id).
    + (split; [|split; [|split]]); intros v Hv; inversion Hv; by eexists.
    + vm_compute. reflexivity.
    + vm_compute. reflexivity.
  - apply (proj1 (UpdateJob_fails_only_when Some Some no_nul 300 sample_db
                    "not-a-uuid" half_done)).
    right. vm_compute. reflexivity.
  - apply (proj1 (UpdateJob_fails_only_when Some Some no_nul 300 sample_db
                    (ID finished_job) nul_message)).
    left. intros (_ & _ & _ & He).
    destruct (He _ eq_refl) as [x Hx]. vm_compute in Hx. discriminate Hx.
Defined.

(** X3 on the sample history and the finished job. *)
Lemma history_keeps_rows_witness :
  jobs sample_db !! ID finished_job = Some finished_job ∧
  ∃ j', jobs (run Some Some Some Some sample_history sample_db).2 !! ID finished_job
        = Some j' ∧
        ID j' = ID finished_job ∧ UserID j' = UserID finished_job ∧
        TargetDate j' = TargetDate finished_job ∧
        InputData j' = InputData finished_job ∧
        CreatedAt j' = CreatedAt finished_job.
Proof.
  assert (jobs sample_db !! ID finished_job = Some finished_job) as Hrow
    by (vm_compute; reflexivity).
  exact (conj Hrow
           (history_keeps_rows Some Some Some Some sample_history sample_db
              (ID finished_job) finished_job Hrow)).
Defined.

(** X4 on the sample database: after the sample history, and after the
    finished job is deleted. *)
Lemma store_stays_consistent_witness :
  consistent (run Some Some Some Some sample_history sample_db).2 ∧
  consistent (DeleteJob sample_db (ID finished_job)).2.
Proof.
  exact (store_stays_consistent Some Some Some Some sample_history sample_db
           (ID finished_job) sample_db_consistent).
Defined.

(** X5 on the finished job, named in upper case: progress 3/4 at time
    300, then 1/4 at time 310. *)
Lemma UpdateJob_last_write_wins_witness :
  ∃ j1 db1 j2 db2,
    UpdateJob Some Some Some 300 sample_db "650E8400-E29B-41D4-A716-446655440002"
      (progress_only (3 # 4)%Q) = (Ok j1, db1) ∧
    UpdateJob Some Some Some 310 db1 "650E8400-E29B-41D4-A716-446655440002"
      (progress_only (1 # 4)%Q) = (Ok j2, db2) ∧
    GetJob db2 "650E8400-E29B-41D4-A716-446655440002" = Ok j2 ∧
    j2 = {| ID := ID finished_job; UserID := UserID finished_job;
            Status := Status finished_job; Progress := (1 # 4)%Q;
            CurrentStep := CurrentStep finished_job;
            TargetDate := TargetDate finished_job;
            InputData := InputData finished_job;
            Result := Result finished_job;
            ErrorMessage := ErrorMessage finished_job;
            CreatedAt := CreatedAt finished_job; UpdatedAt := 310 |}.
Proof.
  apply (UpdateJob_last_write_wins Some Some Some 300 310 sample_db
           "650E8400-E29B-41D4-A716-446655440002" (ID finished_job)
           (3 # 4)%Q (1 # 4)%Q finished_job).
  - vm_compute. reflexivity.
  - vm_compute. reflexivity.
Defined.

(** X8 on the sample creation. *)
Lemma store_reads_its_writes_witness :
  GetJob (db_with plain_job) (ID plain_job) = Ok plain_job ∧
  (∃ l, Jobs (db_with plain_job) (Some (ci_UserID sample_create)) = Ok l ∧
        plain_job ∈ l) ∧
  (∃ l, Jobs (db_with plain_job) None = Ok l ∧ plain_job ∈ l).
Proof.
  exact (proj1 (store_reads_its_writes Some Some Some Some new_uuid 300 sample_db
                  new_id sample_create half_done)
           plain_job (db_with plain_job) sample_creation).
Defined.

End StoreExtras.

(** ** The backend handler: panics, failures, the updateJob branch *)

Module HandlerExtras.

Import JobStore Spec SpecMore JobStoreMore BackendMore.
Import JobStoreFacts DispatchFacts StoreExtras.

Section Facts.

Variable date_in : string → option string.
Variable jsonb_in : string → option string.
Variable varchar255_in : string → option string.
Variable text_in : string → option string.

(** The createJob branch on a request it takes, with the type
    assertions settled. *)
Lemma handle_createJob_taken c env d r vars input userID :
  json_get "input" vars = Some (JObject input) →
  json_get "userId" input = Some userID →
  Backend.handle_createJob date_in jsonb_in c env d r (Some vars) =
  Some
    match userID, json_get "targetDate" input,
          default JNull (json_get "inputData" input) with
    | JString userID, Some (JString targetDate), JNull =>
        match CreateJob date_in jsonb_in (Backend.uuid_New env)
                (Backend.time_Now env) d
                {| ci_UserID := userID; ci_TargetDate := targetDate;
                   ci_InputData := None |} with
        | (Err err, d') =>
            Backend.Returned
              ({| Backend.Data := None; Backend.Errors := [err] |}, d', r)
        | (Ok job, d') =>
            Backend.Returned
              ({| Backend.Data := Some job; Backend.Errors := [] |}, d',
               (Backend.AddJobToQueue c (Backend.redis_up env) r (ID job)
                  (UserID job) (TargetDate job) None).2)
        end
    | JString userID, Some (JString targetDate), JString s =>
        match CreateJob date_in jsonb_in (Backend.uuid_New env)
                (Backend.time_Now env) d
                {| ci_UserID := userID; ci_TargetDate := targetDate;
                   ci_InputData := Some s |} with
        | (Err err, d') =>
            Backend.Returned
              ({| Backend.Data := None; Backend.Errors := [err] |}, d', r)
        | (Ok job, d') =>
            Backend.Returned
              ({| Backend.Data := Some job; Backend.Errors := [] |}, d',
               (Backend.AddJobToQueue c (Backend.redis_up env) r (ID job)
                  (UserID job) (TargetDate job) (Some s)).2)
        end
    | _, _, _ => Backend.Panicked
    end.
Proof.
  intros Hinput Huser. unfold Backend.handle_createJob.
  rewrite Hinput, Huser.
  destruct userID as [| | |u| |]; try done.
  destruct (json_get "targetDate" input) as [[| | |t| |]|]; try done.
  destruct (json_get "inputData" input) as [[| | |s| |]|];
    cbn [default from_option id]; try done.
  all: destruct (CreateJob _ _ _ _ _ _) as [[job|e] d']; [|done].
  all: rewrite QueueJob_of_job.
  all: by destruct (Backend.AddJobToQueue _ _ _ _ _ _ _).
Qed.

(** X9. The createJob branch panics exactly on a request it takes (an
    [input] object with a [userId] key) whose [userId] is not a string,
    whose [targetDate] is missing or not a string, or whose [inputData]
    is present, not [null] and not a string; every other request it
    takes is answered. *)
Theorem handle_createJob_panics_iff c env d r vars input userID :
  json_get "input" vars = Some (JObject input) →
  json_get "userId" input = Some userID →
  Backend.handle_createJob date_in jsonb_in c env d r (Some vars)
    = Some Backend.Panicked
  ↔ (∀ s, userID ≠ JString s) ∨
    (∀ s, json_get "targetDate" input ≠ Some (JString s)) ∨
    (∃ x, json_get "inputData" input = Some x ∧ x ≠ JNull ∧ ∀ s, x ≠ JString s).
Proof.
  intros Hinput Huser.
  rewrite (handle_createJob_taken c env d r vars input userID Hinput Huser).
  destruct userID as [| | |u| |];
    try (split; [intros _; left; intros s; discriminate|done]).
  destruct (json_get "targetDate" input) as [[| | |t| |]|];
    try (split; [intros _; right; left; intros s; discriminate|done]).
  destruct (json_get "inputData" input) as [[| | |x| |]|];
    cbn [default from_option id];
    try (split; [intros _; right; right; eexists; split; [done|];
                 split; [discriminate|intros s; discriminate]|done]).
  all: destruct (CreateJob _ _ _ _ _ _) as [[job|e] d'].
  all: split; [discriminate|].
  all: intros [Hu|[Ht|(x' & Hx & Hnull & Hstr)]];
    [by destruct (Hu u)|by destruct (Ht t)|].
  all: try discriminate Hx.
  all: inversion Hx; subst; try done; by destruct (Hstr x).
Qed.

(** What the createJob branch returns: a job and no error, or one error
    and no job with nothing changed. *)
Lemma handle_createJob_returned c env d r vars resp d' r' :
  Backend.handle_createJob date_in jsonb_in c env d r vars
    = Some (Backend.Returned (resp, d', r')) →
  (∃ job, Backend.Data resp = Some job ∧ Backend.Errors resp = []) ∨
  (∃ err, Backend.Data resp = None ∧ Backend.Errors resp = [err] ∧
          d' = d ∧ r' = r).
Proof.
  unfold Backend.handle_createJob. intros Hh.
  destruct vars as [vars|]; [|done].
  destruct (json_get "input" vars) as [[| | | | |input]|]; try done.
  destruct (json_get "userId" input) as [userID|]; [|done].
  destruct userID as [| | |userID| |]; try done.
  destruct (json_get "targetDate" input) as [[| | |targetDate| |]|]; try done.
  destruct (json_get "inputData" input) as [[| | |s| |]|];
    cbn [default from_option id] in Hh; try done.
  all: match type of Hh with
       | context [CreateJob ?a ?b ?c ?d ?e ?f] =>
           destruct (CreateJob a b c d e f) as [[j|e0] d0] eqn:HC
       end.
  all: try (apply CreateJob_Err in HC; inversion Hh; subst; right; by eexists).
  all: rewrite QueueJob_of_job in Hh.
  all: destruct (Backend.AddJobToQueue _ _ _ _ _ _ _) as [err r0].
  all: inversion Hh; subst; left; by eexists.
Qed.

(** X10. An answer of the createJob branch holds either a job and no
    error, and then the job is pending, has the identifier drawn for the
    request and reads back from the database; or one error and no job,
    and then the database and the queue are as before the request. *)
Theorem handle_createJob_answer c env d r vars resp d' r' :
  Backend.handle_createJob date_in jsonb_in c env d r vars
    = Some (Backend.Returned (resp, d', r')) →
  (∃ job, Backend.Data resp = Some job ∧ Backend.Errors resp = [] ∧
          ID job = UUID.uuid_out (Backend.uuid_New env) ∧ Status job = PENDING ∧
          GetJob d' (ID job) = Ok job) ∨
  (∃ err, Backend.Data resp = None ∧ Backend.Errors resp = [err] ∧
          d' = d ∧ r' = r).
Proof.
  intros Hh.
  destruct (handle_createJob_returned c env d r vars resp d' r' Hh)
    as [(job & HD & HE)|Herr]; [left|by right].
  exists job.
  destruct (handle_createJob_created date_in jsonb_in c env d r vars resp d' r'
              job Hh HD) as (_ & [ci Hc] & _).
  pose proof (CreateJob_stored _ _ _ _ _ _ _ _ Hc) as [Hget Hst].
  apply CreateJob_Ok in Hc as (_ & _ & Hid & _).
  done.
Qed.

(** X11. The row of a created job holds no input data when the request
    supplied none, [null] or the empty string, and the JSONB reading of
    the supplied text otherwise; the descriptor the backend pushes
    carries [input_data] whenever a string was supplied, the empty one
    included. *)
Theorem input_data_of_row_and_descriptor c env d r vars resp d' r' job :
  Backend.handle_createJob date_in jsonb_in c env d r vars
    = Some (Backend.Returned (resp, d', r')) →
  Backend.Data resp = Some job →
  match request_InputData vars with
  | None => InputData job = None
  | Some s => if decide (s = EmptyString) then InputData job = None
              else Some <$> jsonb_in s = Some (InputData job)
  end ∧
  (backend_pushes c env = true →
   head (Redis.list_at "commute_jobs" r')
   = Some (JObject ([("job_id", JString (ID job));
                     ("user_id", JString (UserID job));
                     ("target_date", JString (TargetDate job))] ++
                    match request_InputData vars with
                    | Some s => [("input_data", JString s)]
                    | None => []
                    end))).
Proof.
  intros Hh HD. split.
  - destruct vars as [vars|]; [|done]. unfold request_InputData.
    unfold Backend.handle_createJob in Hh.
    destruct (json_get "input" vars) as [[| | | | |input]|]; try done.
    destruct (json_get "userId" input) as [userID|]; [|done].
    destruct userID as [| | |userID| |]; try done.
    destruct (json_get "targetDate" input) as [[| | |targetDate| |]|]; try done.
    destruct (json_get "inputData" input) as [[| | |s| |]|];
      cbn [default from_option id] in Hh; try done.
    all: match type of Hh with
         | context [CreateJob ?a ?b ?c ?d ?e ?f] =>
             destruct (CreateJob a b c d e f) as [[j|e0] d0] eqn:HC
         end;
         [|inversion Hh; subst; simpl in HD; done].
    all: rewrite QueueJob_of_job in Hh.
    all: destruct (Backend.AddJobToQueue _ _ _ _ _ _ _) as [err r0].
    all: inversion Hh; subst; simpl in HD; inversion HD; subst.
    all: pose proof (CreateJob_Ok_acceptable _ _ _ _ _ _ _ _ HC) as Hjob.
    all: destruct Hjob as (_ & _ & _ & _ & _ & _ & _ & Hdata).
    all: exact Hdata.
  - intros Hp.
    apply handle_createJob_created with (job := job) in Hh as (_ & _ & Hr);
      [|done].
    rewrite Hp in Hr. subst r'. rewrite list_at_LPUSH. simpl.
    unfold backend_descriptor, Backend.Marshal. simpl.
    by destruct (request_InputData vars).
Qed.

(** Reading the fields of an updateJob input: the well-typed ones give
    the update they spell, any other input panics. *)
Lemma read_UpdateJobInput_eq input :
  read_UpdateJobInput input =
  if well_typed_update input
  then Backend.Returned (wire_UpdateJobInput input)
  else Backend.Panicked.
Proof.
  unfold read_UpdateJobInput, well_typed_update, wire_UpdateJobInput,
    string_field, float64_field, string_or_null, number_or_null,
    wire_string, wire_number.
  destruct (json_get "status" input) as [[| | | | |]|]; simpl; try done;
    destruct (json_get "progress" input) as [[| | | | |]|]; simpl; try done;
    destruct (json_get "currentStep" input) as [[| | | | |]|]; simpl; try done;
    destruct (json_get "result" input) as [[| | | | |]|]; simpl; try done;
    by destruct (json_get "errorMessage" input) as [[| | | | |]|].
Qed.

(** The updateJob branch on a request it takes, with the type
    assertions settled. *)
Lemma handle_updateJob_eq NOW db vars id input :
  json_get "id" vars = Some (JString id) →
  json_get "input" vars = Some (JObject input) →
  handle_updateJob jsonb_in varchar255_in text_in NOW db (Some vars) =
  Some (if well_typed_update input then
          match UpdateJob jsonb_in varchar255_in text_in NOW db id
                  (wire_UpdateJobInput input) with
          | (Ok job, db') =>
              Backend.Returned
                ({| Data := Some (data_updateJob job); Errors := [] |}, db')
          | (Err err, _) =>
              Backend.Returned ({| Data := None; Errors := [err] |}, db)
          end
        else Backend.Panicked).
Proof.
  intros Hid Hinput. unfold handle_updateJob.
  rewrite Hid, Hinput, read_UpdateJobInput_eq.
  destruct (well_typed_update input); [|done].
  destruct (UpdateJob _ _ _ _ _ _) as [[job|e] db'] eqn:Hu; [done|].
  apply (UpdateJob_Err jsonb_in varchar255_in text_in) in Hu as ->.
  done.
Qed.

(** X12. An updateJob request (a string [id], an [input] object) makes
    the handler panic exactly when one of the five fields it reads has
    another JSON type than its assertion asks for (a string, a number
    for [progress]) and is not [null]. Every other such request is
    answered with what [UpdateJob] makes of the fields that are neither
    [null] nor missing: the updated job and no error, or one error, no
    job and the database untouched. *)
Theorem handle_updateJob_answer NOW db vars id input :
  json_get "id" vars = Some (JString id) →
  json_get "input" vars = Some (JObject input) →
  (handle_updateJob jsonb_in varchar255_in text_in NOW db (Some vars)
     = Some Backend.Panicked ↔ well_typed_update input = false) ∧
  ∀ resp db',
    handle_updateJob jsonb_in varchar255_in text_in NOW db (Some vars)
      = Some (Backend.Returned (resp, db')) →
    (∃ job, Data resp = Some (data_updateJob job) ∧ Errors resp = [] ∧
            UpdateJob jsonb_in varchar255_in text_in NOW db id (wire_UpdateJobInput input)
              = (Ok job, db')) ∨
    (∃ err e_db, Data resp = None ∧ Errors resp = [err] ∧ db' = db ∧
            UpdateJob jsonb_in varchar255_in text_in NOW db id (wire_UpdateJobInput input)
              = (Err err, e_db)).
Proof.
  intros Hid Hinput. rewrite (handle_updateJob_eq NOW db vars id input Hid Hinput).
  destruct (well_typed_update input).
  - destruct (UpdateJob _ _ _ _ _ _) as [[job|e] db1] eqn:Hu.
    + split; [done|]. intros resp db' Hr. left. exists job.
      by simplify_eq.
    + split; [done|]. intros resp db' Hr. right. exists e, db1.
      by simplify_eq.
  - split; [done|]. intros resp db' Hr. discriminate Hr.
Qed.

(** The [default:] case on a request the createJob branch takes. *)
Lemma handle_default_creation c env NOW db r vars input :
  json_get "input" vars = Some (JObject input) →
  is_Some (json_get "userId" input) →
  ∃ o, Backend.handle_createJob date_in jsonb_in c env db r (Some vars) = Some o ∧
       handle_default date_in jsonb_in varchar255_in text_in c env NOW db r (Some vars) =
       match o with
       | Backend.Panicked => Backend.Panicked
       | Backend.Returned (response, db', r') =>
           Backend.Returned
             ({| Data := data_createJob <$> Backend.Data response;
                 Errors := Backend.Errors response |}, db', r')
       end.
Proof.
  intros Hinput [userID Huser]. unfold handle_default.
  rewrite (handle_createJob_taken c env db r vars input userID Hinput Huser).
  eexists. split; reflexivity.
Qed.

(** X13. A request whose [input] object has a [userId] key is always
    handled as a creation, also when it carries an [id] and update
    fields: no existing row is changed by it and its answer is never an
    updated job. *)
Theorem request_with_userId_is_a_creation c env NOW db r vars input resp db' r' :
  json_get "input" vars = Some (JObject input) →
  is_Some (json_get "userId" input) →
  handle_default date_in jsonb_in varchar255_in text_in c env NOW db r (Some vars)
    = Backend.Returned (resp, db', r') →
  (∀ k j, jobs db !! k = Some j → jobs db' !! k = Some j) ∧
  ∀ job, Data resp ≠ Some (data_updateJob job).
Proof.
  intros Hinput Huser Hd.
  destruct (handle_default_creation c env NOW db r vars input Hinput Huser)
    as (o & Ho & Heq).
  rewrite Heq in Hd. destruct o as [[[response d1] r1]|]; [|done].
  inversion Hd; subst. split.
  - intros k j Hk.
    destruct (handle_createJob_returned c env db r (Some vars) response db' r' Ho)
      as [(job & HD & _)|(err & _ & _ & -> & _)]; [|done].
    apply handle_createJob_created with (job := job) in Ho
      as (_ & [ci Hc] & _); [|done].
    apply CreateJob_Ok in Hc as (Hfresh & _ & _ & _ & _ & _ & _ & Hjobs).
    rewrite Hjobs, lookup_insert_ne; [done|]. congruence.
  - intros job. simpl. by destruct (Backend.Data response).
Qed.

(** The [default:] case on a request without an [input] object. *)
Lemma handle_default_without_input c env NOW db r vars :
  (∀ input, json_get "input" vars ≠ Some (JObject input)) →
  handle_default date_in jsonb_in varchar255_in text_in c env NOW db r (Some vars) =
  Backend.Returned ({| Data := None; Errors := [not_supported] |}, db, r).
Proof.
  intros Hno. unfold handle_default, Backend.handle_createJob, handle_updateJob.
  destruct (json_get "input" vars) as [[| | | | |input]|]; try done.
  - by destruct (json_get "id" vars) as [[| | | | |]|].
  - by destruct (json_get "id" vars) as [[| | | | |]|].
  - by destruct (json_get "id" vars) as [[| | | | |]|].
  - by destruct (json_get "id" vars) as [[| | | | |]|].
  - by destruct (json_get "id" vars) as [[| | | | |]|].
  - by destruct (Hno input).
  - by destruct (json_get "id" vars) as [[| | | | |]|].
Qed.

End Facts.

(** What the handler makes of the sample update request. *)
Lemma sample_update_call :
  handle_updateJob Some Some Some 300 sample_db (Some update_variables)
  = Some (Backend.Returned
            ({| Data := Some (data_updateJob half_done_job); Errors := [] |},
             db_with half_done_job)).
Proof. vm_compute. reflexivity. Qed.

(** What the [default:] case makes of the request that names a user and
    the finished job. *)
Lemma sample_mixed_call :
  handle_default Some Some Some Some Backend.redisClient (backend_env true) 300
    sample_db ∅ (Some mixed_variables)
  = Backend.Returned
      ({| Data := Some (data_createJob plain_job); Errors := [] |},
       db_with plain_job,
       Redis.LPUSH "commute_jobs" (backend_descriptor plain_job None) ∅).
Proof. vm_compute. reflexivity. Qed.

(** X9 on the request whose target date is a number. *)
Lemma handle_createJob_panics_iff_witness :
  Backend.handle_createJob Some Some Backend.redisClient (backend_env true)
    sample_db ∅ (Some untyped_variables) = Some Backend.Panicked.
Proof.
  apply (proj2 (handle_createJob_panics_iff Some Some Backend.redisClient
                  (backend_env true) sample_db ∅ untyped_variables
                  untyped_input (JString john) eq_refl eq_refl)).
  right. left. intros s. vm_compute. discriminate.
Defined.

(** X10 on the sample request sent to the backend. *)
Lemma handle_createJob_answer_witness :
  ∃ job, ID job = new_id ∧ Status job = PENDING ∧
         GetJob (db_with plain_job) (ID job) = Ok job.
Proof.
  destruct (handle_createJob_answer Some Some Backend.redisClient
              (backend_env true) sample_db ∅ sample_variables _ _ _
              (sample_handler_call true))
    as [(job & _ & _ & Hid & Hst & Hget)|(err & HD & _)].
  - exists job. exact (conj Hid (conj Hst Hget)).
  - discriminate HD.
Defined.

(** X11 on the sample request with input data. *)
Lemma input_data_of_row_and_descriptor_witness :
  Some <$> Some "{}" = Some (InputData sample_job) ∧
  head (Redis.list_at "commute_jobs"
          (Redis.LPUSH "commute_jobs"
             (backend_descriptor sample_job (Some "{}")) ∅))
  = Some (JObject [("job_id", JString new_id); ("user_id", JString john);
                   ("target_date", JString "2025-08-15");
                   ("input_data", JString "{}")]).
Proof.
  destruct (input_data_of_row_and_descriptor Some Some Backend.redisClient
              (backend_env true) sample_db ∅ sample_variables_data _ _ _
              sample_job sample_handler_call_data eq_refl) as [Hrow Hhead].
  exact (conj Hrow (Hhead eq_refl)).
Defined.

(** X12 on the sample update request. *)
Lemma handle_updateJob_answer_witness :
  UpdateJob Some Some Some 300 sample_db (ID finished_job)
    (wire_UpdateJobInput update_fields)
  = (Ok half_done_job, db_with half_done_job).
Proof.
  destruct (proj2 (handle_updateJob_answer Some Some Some 300 sample_db
                     update_variables (ID finished_job) update_fields
                     eq_refl eq_refl) _ _ sample_update_call)
    as [(job & HD & _ & HU)|(err & e_db & HD & _)].
  - injection HD as <-. exact HU.
  - discriminate HD.
Defined.

(** X13 on the request that names a user and the finished job: the
    finished job is as before. *)
Lemma request_with_userId_is_a_creation_witness :
  jobs (db_with plain_job) !! ID finished_job = Some finished_job.
Proof.
  destruct (request_with_userId_is_a_creation Some Some Some Some Backend.redisClient
              (backend_env true) 300 sample_db ∅ mixed_variables mixed_input
              _ _ _ eq_refl (ex_intro _ (JString john) eq_refl)
              sample_mixed_call) as [Hkeep _].
  apply Hkeep. vm_compute. reflexivity.
Defined.

End HandlerExtras.

(** ** The gateway: delegations to the backend, failures of
    [createCommuteJob], health *)

Module GatewayExtras.

Import JobStore Spec SpecMore JobStoreMore BackendMore GatewayMore.
Import JobStoreFacts RelayFacts DispatchFacts StoreExtras HandlerExtras.

(** The texts the gateway posts for jobs and users reach the [default:]
    case of the backend's [switch]; the text for calendar events reaches
    the case of that name. *)
Lemma route_of_gateway_texts :
  route_of CreateJob_mutation = route_default ∧
  route_of UpdateJob_mutation = route_default ∧
  route_of GetJob_query = route_default ∧
  route_of GetJobs_query = route_default ∧
  route_of DeleteJob_mutation = route_default ∧
  route_of UpdateUser_mutation = route_default ∧
  route_of GetCalendarEvents_query = route_calendarEvents.
Proof. repeat split; vm_compute; reflexivity. Qed.

Section Facts.

Variable date_in : string → option string.
Variable jsonb_in : string → option string.
Variable varchar255_in : string → option string.
Variable text_in : string → option string.

(** A request of the gateway without an [input] object: the backend
    answers that the query is not supported, which the gateway throws as
    an [Error]. *)
Lemma makeGraphQLRequest_without_input env NOW d r query vars :
  route_of query = route_default →
  (∀ input, json_get "input" vars ≠ Some (JObject input)) →
  ∃ message,
    makeGraphQLRequest date_in jsonb_in varchar255_in text_in env NOW d r query (Some vars)
    = Some (Err (Gateway.Error message), d, r).
Proof.
  intros Hroute Hno. unfold makeGraphQLRequest, graphql_POST.
  destruct (Gateway.backend_up env); [|by eexists].
  simpl. rewrite Hroute.
  rewrite (handle_default_without_input date_in jsonb_in varchar255_in text_in) by done.
  simpl. by eexists.
Qed.

(** X14. The gateway's [job] and [jobs] queries and its [deleteJob]
    mutation never succeed against this backend: its handler supports
    none of them, so each raises its [BACKEND_ERROR] and neither the
    database nor the queue changes. *)
Theorem read_and_delete_delegations_always_fail env NOW d r id userId :
  Query_job date_in jsonb_in varchar255_in text_in env NOW d r id
  = Some (Err (Gateway.GraphQLError "Failed to fetch job" "BACKEND_ERROR"), d, r) ∧
  Query_jobs date_in jsonb_in varchar255_in text_in env NOW d r userId
  = Some (Err (Gateway.GraphQLError "Failed to fetch jobs" "BACKEND_ERROR"), d, r) ∧
  Mutation_deleteJob date_in jsonb_in varchar255_in text_in env NOW d r id
  = Some (Err (Gateway.GraphQLError "Failed to delete job" "BACKEND_ERROR"), d, r).
Proof.
  destruct route_of_gateway_texts as (_ & _ & Hjob & Hjobs & Hdelete & _).
  split; [|split].
  - unfold Query_job, getJob.
    destruct (makeGraphQLRequest_without_input env NOW d r GetJob_query
                [("id", JString id)] Hjob) as [m ->]; [|done].
    intros input. simpl. discriminate.
  - unfold Query_jobs, getJobs.
    destruct (makeGraphQLRequest_without_input env NOW d r GetJobs_query
                (string_property "userId" userId) Hjobs) as [m ->]; [|done].
    intros input. destruct userId; simpl; discriminate.
  - unfold Mutation_deleteJob, deleteJob.
    destruct (makeGraphQLRequest_without_input env NOW d r DeleteJob_mutation
                [("id", JString id)] Hdelete) as [m ->]; [|done].
    intros input. simpl. discriminate.
Qed.

(** X15. Posting the gateway's createJob text goes through the backend's
    [switch] to the createJob branch: [BackendService.createJob] through
    [makeGraphQLRequest] returns the job, changes the database and the
    queue, and throws exactly as the direct call of the branch does. *)
Theorem createJob_reaches_the_createJob_branch env NOW d r input :
  createJob date_in jsonb_in varchar255_in text_in env NOW d r input =
  Some match Gateway.BackendService_createJob date_in jsonb_in env d r input with
       | (Ok job, d', r') => (Ok (Some job), d', r')
       | (Err e, d', r') => (Err e, d', r')
       end.
Proof.
  destruct route_of_gateway_texts as (Hroute & _).
  unfold createJob, makeGraphQLRequest, graphql_POST,
    Gateway.BackendService_createJob.
  destruct (Gateway.backend_up env); [|done].
  cbn [Query Variables]. rewrite Hroute.
  destruct (handle_default_creation date_in jsonb_in varchar255_in text_in
              Backend.redisClient (Gateway.backend_env env) NOW d r
              [("input", CreateCommuteJobInput_json input)]
              ([("userId", JString (Gateway.userId input));
                ("targetDate", JString (Gateway.targetDate input))] ++
               string_property "inputData" (Gateway.inputData input))%list
              eq_refl) as (o & Ho & Heq).
  { destruct (Gateway.inputData input); simpl; by eexists. }
  rewrite Heq.
  change (Backend.handle_createJob date_in jsonb_in Backend.redisClient
            (Gateway.backend_env env) d r
            (Some [("input", JObject
                      ([("userId", JString (Gateway.userId input));
                        ("targetDate", JString (Gateway.targetDate input))] ++
                       match Gateway.inputData input with
                       | Some s => [("inputData", JString s)]
                       | None => []
                       end))]))
    with (Backend.handle_createJob date_in jsonb_in Backend.redisClient
            (Gateway.backend_env env) d r
            (Some [("input", CreateCommuteJobInput_json input)])).
  rewrite Ho.
  destruct o as [[[response d'] r']|]; [|done].
  destruct (handle_createJob_returned date_in jsonb_in Backend.redisClient
              (Gateway.backend_env env) d r _ response d' r' Ho)
    as [(job & HD & HE)|(err & HD & HE & _ & _)]; simpl; by rewrite HD, HE.
Qed.

Lemma UpdateJobArgs_json_read (input : UpdateJobArgs) :
  ∃ fields,
    UpdateJobArgs_json input = JObject fields ∧
    json_get "userId" fields = None ∧
    well_typed_update fields = true ∧
    wire_UpdateJobInput fields = UpdateJobInput_of input.
Proof.
  eexists. split; [reflexivity|].
  destruct input as [[s|] [p|] [c|] [x|] [e|]]; by vm_compute.
Qed.

(** The [default:] case on a request the updateJob branch takes. *)
Lemma handle_default_update c benv NOW db r vars id fields :
  json_get "id" vars = Some (JString id) →
  json_get "input" vars = Some (JObject fields) →
  json_get "userId" fields = None →
  handle_default date_in jsonb_in varchar255_in text_in c benv NOW db r (Some vars) =
  if well_typed_update fields then
    match UpdateJob jsonb_in varchar255_in text_in NOW db id (wire_UpdateJobInput fields) with
    | (Ok job, db') =>
        Backend.Returned
          ({| Data := Some (data_updateJob job); Errors := [] |}, db', r)
    | (Err err, _) => Backend.Returned ({| Data := None; Errors := [err] |}, db, r)
    end
  else Backend.Panicked.
Proof.
  intros Hid Hinput Hno. unfold handle_default.
  assert (Backend.handle_createJob date_in jsonb_in c benv db r (Some vars) = None)
    as -> by (unfold Backend.handle_createJob; by rewrite Hinput, Hno).
  rewrite (handle_updateJob_eq jsonb_in varchar255_in text_in NOW db vars id
             fields Hid Hinput).
  destruct (well_typed_update fields); [|done].
  by destruct (UpdateJob _ _ _ _ _ _) as [[job|e] db'].
Qed.

(** X16. The gateway's [updateJob] is the store's [UpdateJob] on the
    fields given: it returns the updated job, and it raises one and the
    same [BACKEND_ERROR] for an unknown id, for a rejected value and for
    a backend out of reach, without any change. The queue is never
    touched. *)
Theorem Mutation_updateJob_is_UpdateJob env NOW d r id input :
  Mutation_updateJob date_in jsonb_in varchar255_in text_in env NOW d r id input =
  Some (if Gateway.backend_up env then
          match UpdateJob jsonb_in varchar255_in text_in NOW d id (UpdateJobInput_of input) with
          | (Ok job, d') => (Ok (Some job), d', r)
          | (Err _, _) =>
              (Err (Gateway.GraphQLError "Failed to update job" "BACKEND_ERROR"), d, r)
          end
        else (Err (Gateway.GraphQLError "Failed to update job" "BACKEND_ERROR"), d, r)).
Proof.
  destruct route_of_gateway_texts as (_ & Hroute & _).
  destruct (UpdateJobArgs_json_read input) as (fields & Hjson & Hno & Hwt & Hwire).
  unfold Mutation_updateJob, updateJob, makeGraphQLRequest, graphql_POST.
  destruct (Gateway.backend_up env); [|done].
  cbn [Query Variables]. rewrite Hroute, Hjson.
  rewrite (handle_default_update Backend.redisClient (Gateway.backend_env env)
             NOW d r [("id", JString id); ("input", JObject fields)] id fields
             eq_refl eq_refl Hno).
  rewrite Hwt, Hwire.
  by destruct (UpdateJob _ _ _ _ _ _) as [[job|e] d'].
Qed.

Lemma UpdateUserArgs_json_read (input : UpdateUserArgs) :
  ∃ fields,
    UpdateUserArgs_json input = JObject fields ∧
    json_get "userId" fields = None ∧
    well_typed_update fields = true ∧
    wire_UpdateJobInput fields = no_fields.
Proof.
  eexists. split; [reflexivity|].
  destruct input as [[e|] [n|] [p|]]; by vm_compute.
Qed.

(** X17. The gateway's [updateUser] never updates a user: the backend
    takes its request for an updateJob with no fields under the user's
    id. It raises [BACKEND_ERROR] unless a job has that id, and then
    what changes is that job's [updated_at]; the answer is never a
    user. *)
Theorem Mutation_updateUser_is_an_empty_UpdateJob env NOW d r id input :
  Mutation_updateUser date_in jsonb_in varchar255_in text_in env NOW d r id input =
  Some (if Gateway.backend_up env then
          match UpdateJob jsonb_in varchar255_in text_in NOW d id no_fields with
          | (Ok _, d') => (Ok None, d', r)
          | (Err _, _) =>
              (Err (Gateway.GraphQLError "Failed to update user" "BACKEND_ERROR"), d, r)
          end
        else (Err (Gateway.GraphQLError "Failed to update user" "BACKEND_ERROR"), d, r)).
Proof.
  destruct route_of_gateway_texts as (_ & _ & _ & _ & _ & Hroute & _).
  destruct (UpdateUserArgs_json_read input) as (fields & Hjson & Hno & Hwt & Hwire).
  unfold Mutation_updateUser, updateUser, makeGraphQLRequest, graphql_POST.
  destruct (Gateway.backend_up env); [|done].
  cbn [Query Variables]. rewrite Hroute, Hjson.
  rewrite (handle_default_update Backend.redisClient (Gateway.backend_env env)
             NOW d r [("id", JString id); ("input", JObject fields)] id fields
             eq_refl eq_refl Hno).
  rewrite Hwt, Hwire.
  by destruct (UpdateJob _ _ _ _ _ _) as [[job|e] d'].
Qed.

End Facts.

Section Submission.

Variable date_in : string → option string.
Variable jsonb_in : string → option string.

(** [createCommuteJob] on an input that fails the check of the first
    lines. *)
Lemma createCommuteJob_bad_input cfg env w input :
  Gateway.userId input = EmptyString ∨ Gateway.targetDate input = EmptyString →
  Gateway.createCommuteJob date_in jsonb_in cfg env w input =
  (Err (Gateway.GraphQLError "userId and targetDate are required" "BAD_USER_INPUT"), w).
Proof.
  intros Hbad. unfold Gateway.createCommuteJob, Gateway.createCommuteJob_try.
  by rewrite decide_True.
Qed.

(** X18. A [createCommuteJob] that raises an error publishes nothing.
    With an empty [userId] or [targetDate] the error is
    [BAD_USER_INPUT] and nothing at all has happened; otherwise it is
    the generic [INTERNAL_ERROR], and nothing at all has happened when
    the backend was out of reach. *)
Theorem createCommuteJob_failure_effects cfg env w input e w' :
  Gateway.createCommuteJob date_in jsonb_in cfg env w input = (Err e, w') →
  Gateway.pubsub w' = Gateway.pubsub w ∧
  (Gateway.userId input = EmptyString ∨ Gateway.targetDate input = EmptyString →
   e = Gateway.GraphQLError "userId and targetDate are required" "BAD_USER_INPUT" ∧
   w' = w) ∧
  (Gateway.userId input ≠ EmptyString → Gateway.targetDate input ≠ EmptyString →
   e = generic_failure ∧ (Gateway.backend_up env = false → w' = w)).
Proof.
  intros Hc. split; [|split].
  - unfold Gateway.createCommuteJob, Gateway.createCommuteJob_try in Hc.
    case_decide; [by inversion Hc|].
    destruct (Gateway.BackendService_createJob _ _ _ _ _ _) as [[[j|e0] d'] r'].
    + destruct (Gateway.pushJob _ _ _ _) as [[u|e1] r'']; [done|].
      destruct e1; by inversion Hc.
    + destruct e0; by inversion Hc.
  - intros Hbad. rewrite createCommuteJob_bad_input in Hc by done.
    by inversion Hc.
  - intros Hu Ht.
    destruct (Gateway.BackendService_createJob date_in jsonb_in env
                (Gateway.db w) (Gateway.redis w) input)
      as [[[j|e0] d'] r'] eqn:HB.
    + destruct (Gateway.gateway_redis_up env) eqn:Hup.
      * unfold Gateway.createCommuteJob, Gateway.createCommuteJob_try in Hc.
        rewrite decide_False, HB in Hc by tauto.
        unfold Gateway.pushJob, Gateway.lPush in Hc. by rewrite Hup in Hc.
      * rewrite (createCommuteJob_push_failed date_in jsonb_in cfg env w input
                   j d' r' Hu Ht HB Hup) in Hc.
        inversion Hc; subst. split; [done|]. intros Hdown.
        rewrite BackendService_createJob_eq, Hdown in HB. done.
    + rewrite (createCommuteJob_create_failed date_in jsonb_in cfg env w input
                 e0 d' r' Hu Ht HB) in Hc.
      inversion Hc; subst. split; [done|]. intros Hdown.
      rewrite BackendService_createJob_eq, Hdown in HB.
      inversion HB; subst. by destruct w.
Qed.

(** X19. [createCommuteJob] can raise its error for a job that is
    created and dispatched: when the backend's push went through and the
    gateway's own push fails, the caller gets the generic error, the row
    exists and the backend's descriptor of the job heads the queue. *)
Theorem failure_reported_for_a_dispatched_job cfg env w input job d' r' :
  Gateway.userId input ≠ EmptyString → Gateway.targetDate input ≠ EmptyString →
  Gateway.BackendService_createJob date_in jsonb_in env (Gateway.db w)
    (Gateway.redis w) input = (Ok job, d', r') →
  Backend.redis_up (Gateway.backend_env env) = true →
  Gateway.gateway_redis_up env = false →
  ∃ w',
    Gateway.createCommuteJob date_in jsonb_in cfg env w input
      = (Err generic_failure, w') ∧
    GetJob (Gateway.db w') (ID job) = Ok job ∧
    Redis.list_at "commute_jobs" (Gateway.redis w')
      = backend_descriptor job (Gateway.inputData input)
        :: Redis.list_at "commute_jobs" (Gateway.redis w) ∧
    Redis.descriptors_of (ID job)
      (Redis.list_at "commute_jobs" (Gateway.redis w'))
    = 1 + Redis.descriptors_of (ID job)
            (Redis.list_at "commute_jobs" (Gateway.redis w)).
Proof.
  intros Hu Ht HB Hbackend Hdown. eexists. split.
  - by apply createCommuteJob_push_failed with (job := job).
  - apply BackendService_createJob_Ok in HB as [HC Hr].
    apply CreateJob_stored in HC as [Hget _]. rewrite Hbackend in Hr.
    simpl. split; [done|]. subst r'. rewrite list_at_LPUSH. split; [done|].
    by rewrite descriptors_of_cons, backend_descriptor_of.
Qed.

(** X20. With the default configuration a [createCommuteJob] that
    returns a job leaves two descriptors of it in [commute_jobs] when
    the backend's push went through, the gateway's on top of the
    backend's, and one when it did not; for a request without input data
    the two descriptors are the same JSON object. *)
Theorem default_config_queues_twice env w input job w' :
  Gateway.createCommuteJob date_in jsonb_in Gateway.config env w input
    = (Ok job, w') →
  Redis.list_at "commute_jobs" (Gateway.redis w')
  = (gateway_descriptor job ::
     (if Backend.redis_up (Gateway.backend_env env)
      then [backend_descriptor job (Gateway.inputData input)] else []) ++
     Redis.list_at "commute_jobs" (Gateway.redis w))%list ∧
  Redis.descriptors_of (ID job)
    (Redis.list_at "commute_jobs" (Gateway.redis w'))
  = (if Backend.redis_up (Gateway.backend_env env) then 2 else 1) +
    Redis.descriptors_of (ID job)
      (Redis.list_at "commute_jobs" (Gateway.redis w)) ∧
  (Gateway.inputData input = None →
   gateway_descriptor job = backend_descriptor job (Gateway.inputData input)).
Proof.
  intros Hc. apply createCommuteJob_Ok in Hc as (d' & r' & HB & ->).
  apply BackendService_createJob_Ok in HB as [_ Hr]. simpl.
  change (Gateway.redisJobQueue Gateway.config) with "commute_jobs".
  rewrite list_at_LPUSH, descriptors_of_cons, gateway_descriptor_of. subst r'.
  destruct (Backend.redis_up (Gateway.backend_env env)).
  - rewrite list_at_LPUSH, descriptors_of_cons, backend_descriptor_of.
    repeat split; try done. by intros ->.
  - repeat split; try done. by intros ->.
Qed.

End Submission.

(** X21. The health checks never report a failure of the Redis server.
    Once [connect] has succeeded: when the client rejects the [lLen]
    call, [gatewayHealth] answers [healthy] with [redis: true] and
    [queue: 0], the [/health] endpoint answers 200 with the same and
    [queueStatus] answers length 0; when the server is out of reach and
    the command stays queued, none of the three answers; and whatever
    becomes of the command, none of them answers [unhealthy], 503 or an
    error. *)
Theorem health_is_blind_to_an_unreachable_server {L : Type} cfg
    (svc svc' : RedisService L) r timestamp :
  connect true svc = Ok svc' →
  (gatewayHealth cfg svc' Gateway.rejected r timestamp
   = Some (Ok {| hs_status := "healthy"; hs_redis := true; hs_queue := 0;
                 hs_backend := Gateway.backendServiceUrl cfg;
                 hs_timestamp := timestamp |}) ∧
   health_endpoint cfg svc' Gateway.rejected r
   = Some {| http_status := 200; body_status := "healthy";
             body_services := Some (true, 0, Gateway.backendServiceUrl cfg) |} ∧
   queueStatus cfg Gateway.rejected r
   = Some (Ok {| qs_length := 0; qs_processing := 0 |})) ∧
  (gatewayHealth cfg svc' Gateway.queued r timestamp = None ∧
   health_endpoint cfg svc' Gateway.queued r = None ∧
   queueStatus cfg Gateway.queued r = None) ∧
  ∀ s,
    (∀ answer, gatewayHealth cfg svc' s r timestamp = Some answer →
               ∃ h, answer = Ok h ∧ hs_status h = "healthy" ∧ hs_redis h = true) ∧
    (∀ response, health_endpoint cfg svc' s r = Some response →
                 http_status response = 200 ∧ body_status response = "healthy") ∧
    (∀ answer, queueStatus cfg s r = Some answer → ∃ q, answer = Ok q).
Proof.
  intros Hc. inversion Hc; subst. split; [done|]. split; [done|].
  intros [| |]; (split; [|split]); intros x Hx;
    try discriminate Hx; inversion Hx; subst; simpl; eauto.
Qed.

(** What [createCommuteJob] makes of the sample request when the
    gateway's push fails. *)
Lemma sample_push_failed_call :
  Gateway.createCommuteJob Some Some Gateway.config env_queue_down sample_world
    sample_request = (Err generic_failure, sample_world_push_failed).
Proof. vm_compute. reflexivity. Qed.

(** X18 on the sample request with the gateway's queue connection
    down. *)
Lemma createCommuteJob_failure_effects_witness :
  ∃ e w',
    Gateway.createCommuteJob Some Some Gateway.config env_queue_down
      sample_world sample_request = (Err e, w') ∧
    Gateway.pubsub w' = Gateway.pubsub sample_world ∧ e = generic_failure.
Proof.
  exists generic_failure, sample_world_push_failed.
  destruct (createCommuteJob_failure_effects Some Some Gateway.config
              env_queue_down sample_world sample_request _ _
              sample_push_failed_call) as (Hpubsub & _ & Hgeneric).
  exact (conj sample_push_failed_call (conj Hpubsub eq_refl)).
Defined.

(** X19 on the sample request with the gateway's queue connection
    down. *)
Lemma failure_reported_for_a_dispatched_job_witness :
  ∃ w',
    Gateway.createCommuteJob Some Some Gateway.config env_queue_down
      sample_world sample_request = (Err generic_failure, w') ∧
    GetJob (Gateway.db w') (ID sample_job) = Ok sample_job ∧
    Redis.list_at "commute_jobs" (Gateway.redis w')
      = backend_descriptor sample_job (Gateway.inputData sample_request)
        :: Redis.list_at "commute_jobs" (Gateway.redis sample_world) ∧
    Redis.descriptors_of (ID sample_job)
      (Redis.list_at "commute_jobs" (Gateway.redis w'))
    = 1 + Redis.descriptors_of (ID sample_job)
            (Redis.list_at "commute_jobs" (Gateway.redis sample_world)).
Proof.
  apply (failure_reported_for_a_dispatched_job Some Some Gateway.config
           env_queue_down sample_world sample_request sample_job
           (db_with sample_job)
           (Redis.LPUSH "commute_jobs"
              (backend_descriptor sample_job (Some "{}")) ∅)).
  - vm_compute. discriminate.
  - vm_compute. discriminate.
  - exact (sample_backend_call env_queue_down eq_refl eq_refl).
  - reflexivity.
  - reflexivity.
Defined.

(** X20 on the sample request when everything answers. *)
Lemma default_config_queues_twice_witness :
  Redis.descriptors_of (ID sample_job)
    (Redis.list_at "commute_jobs" (Gateway.redis sample_world_after))
  = 2 + Redis.descriptors_of (ID sample_job)
          (Redis.list_at "commute_jobs" (Gateway.redis sample_world)).
Proof.
  exact (proj1 (proj2 (default_config_queues_twice Some Some env_up sample_world
                         sample_request sample_job sample_world_after
                         sample_gateway_call))).
Defined.

(** X21 on a service that has just connected, with an empty server and
    a rejected call. *)
Lemma health_is_blind_to_an_unreachable_server_witness :
  gatewayHealth Gateway.config
    {| isConnected := true;
       progressListeners :=
         progressListeners (new_RedisService (L := Gateway.JobProgress → unit)) |}
    Gateway.rejected ∅ 0
  = Some (Ok {| hs_status := "healthy"; hs_redis := true; hs_queue := 0;
                hs_backend := Gateway.backendServiceUrl Gateway.config;
                hs_timestamp := 0 |}).
Proof.
  exact (proj1 (proj1 (health_is_blind_to_an_unreachable_server Gateway.config
                         new_RedisService _ ∅ 0 eq_refl))).
Defined.

End GatewayExtras.

(** ** The relay over a run of messages *)

Module RelayExtras.

Import JobStore Spec SpecMore GatewayMore.
Import RelayFacts.

(** X22. The key [*] of the global listener is an ordinary key of the
    registry: a listener registered for the job id [*] takes the place of
    the relay of [startServer], so the relay publishes nothing any more
    (the calls made are those of the new listener), and
    [unsubscribeFromJobProgress] of the job id [*] removes the relay:
    nothing is published for any message. *)
Theorem star_job_listener_takes_the_global_slot
    (l : Gateway.JobProgress → list (string * Gateway.JobProgress)) p :
  Gateway.relay_message
    (Gateway.subscribeToJobProgress "*" l Gateway.startServer_listeners)
    (Some p)
  = (if decide (Gateway.jobId p = "*") then (l p ++ l p)%list else l p) ∧
  (∀ m, Gateway.relay_message
          (Gateway.unsubscribeFromJobProgress "*" Gateway.startServer_listeners)
          m = []).
Proof.
  unfold Gateway.relay_message, Gateway.on_message,
    Gateway.subscribeToJobProgress, Gateway.unsubscribeFromJobProgress,
    Gateway.startServer_listeners, Gateway.subscribeToAllProgress.
  split.
  - rewrite lookup_insert_eq. case_decide as Hid.
    + rewrite Hid, lookup_insert_eq. simpl. by rewrite app_nil_r.
    + rewrite !lookup_insert_ne, lookup_empty by done. simpl.
      by rewrite app_nil_r.
  - intros [p'|]; [|done]. rewrite lookup_delete_eq.
    destruct (decide (Gateway.jobId p' = "*")) as [->|Hid].
    + by rewrite lookup_delete_eq.
    + by rewrite lookup_delete_ne, lookup_insert_ne, lookup_empty.
Qed.

(** Publishing keeps every subscription in its place and under its
    trigger name. *)
Lemma publish_all_lookup i s calls ps :
  ps !! i = Some s →
  Gateway.publish_all calls ps !! i =
  Some {| Gateway.triggerName := Gateway.triggerName s;
          Gateway.inbox := Gateway.received i (Gateway.publish_all calls ps) |}.
Proof.
  unfold Gateway.publish_all. revert ps s.
  induction calls as [|[t p] calls IH]; intros ps s Hi; simpl.
  - unfold Gateway.received. rewrite Hi. by destruct s.
  - assert (Gateway.publish t p ps !! i = Some (Gateway.deliver t p s)) as Hi'
      by (unfold Gateway.publish; by rewrite list_lookup_fmap, Hi).
    rewrite (IH _ _ Hi'). unfold Gateway.deliver. by case_decide.
Qed.

(** What a run of the relay of [startServer] delivers to a subscription,
    when no event has the job id [*]. *)
Lemma relay_all_received messages : ∀ ps i s,
  ps !! i = Some s →
  (∀ p, Some p ∈ messages → Gateway.jobId p ≠ "*") →
  Gateway.received i (relay_all Gateway.startServer_listeners messages ps) =
  (Gateway.inbox s ++
   filter (λ p, Gateway.triggerName s = Gateway.JOB_PROGRESS ∨
                Gateway.triggerName s = Gateway.JOB_PROGRESS_ (Gateway.jobId p))
          (events messages))%list.
Proof.
  unfold relay_all, events.
  induction messages as [|m messages IH]; intros ps i s Hi Hstar; simpl.
  - unfold Gateway.received. rewrite Hi. by rewrite app_nil_r.
  - pose proof (publish_all_lookup i s
                  (Gateway.relay_message Gateway.startServer_listeners m) ps Hi)
      as Hi'.
    rewrite (IH _ _ _ Hi') by (intros p Hp; apply Hstar; by right).
    simpl. destruct m as [p|]; simpl.
    + rewrite (relay_delivers i s p ps Hi) by (apply Hstar; by left).
      rewrite filter_cons. case_decide.
      * by rewrite <- app_assoc.
      * done.
    + unfold Gateway.received. simpl. by rewrite Hi.
Qed.

(** The events a subscription takes from the relay, by its trigger. *)
Lemma taken_by_aggregate t (l : list Gateway.JobProgress) :
  t = Gateway.JOB_PROGRESS →
  filter (λ p, t = Gateway.JOB_PROGRESS ∨
               t = Gateway.JOB_PROGRESS_ (Gateway.jobId p)) l = l.
Proof.
  intros Ht. induction l as [|p l IH]; [done|].
  rewrite filter_cons, decide_True by tauto. by rewrite IH.
Qed.

Lemma taken_by_job t j (l : list Gateway.JobProgress) :
  t = Gateway.JOB_PROGRESS_ j →
  filter (λ p, t = Gateway.JOB_PROGRESS ∨
               t = Gateway.JOB_PROGRESS_ (Gateway.jobId p)) l
  = filter (λ p, Gateway.jobId p = j) l.
Proof.
  intros Ht. induction l as [|p l IH]; [done|].
  rewrite !filter_cons, IH.
  destruct (decide (Gateway.jobId p = j)) as [Hj|Hj].
  - rewrite decide_True; [done|]. right. by rewrite Ht, Hj.
  - rewrite decide_False; [done|]. rewrite Ht. intros [Hagg|Heq].
    + by apply JOB_PROGRESS_ne in Hagg.
    + apply JOB_PROGRESS_inj in Heq. congruence.
Qed.

(** X23. Over any run of messages of the progress channel, handled by
    the relay of [startServer], a subscription of the aggregate trigger
    receives every event, and a subscription of the trigger of job [j]
    receives the events of job [j] and no other; both in the order of the
    messages, each event once, after what the subscription held before.
    Messages that do not parse deliver nothing. (No event has the job id
    [*].) *)
Theorem relay_delivers_each_event_once_in_order messages ps i s :
  ps !! i = Some s →
  (∀ p, Some p ∈ messages → Gateway.jobId p ≠ "*") →
  let after := relay_all Gateway.startServer_listeners messages ps in
  (Gateway.triggerName s = Gateway.JOB_PROGRESS →
   Gateway.received i after = (Gateway.inbox s ++ events messages)%list) ∧
  (∀ j, Gateway.triggerName s = Gateway.JOB_PROGRESS_ j →
        Gateway.received i after =
        (Gateway.inbox s ++
         filter (λ p, Gateway.jobId p = j) (events messages))%list).
Proof.
  intros Hi Hstar after. subst after.
  rewrite (relay_all_received messages ps i s Hi Hstar). split.
  - intros Ht. by rewrite taken_by_aggregate.
  - intros j Ht. by rewrite (taken_by_job _ j).
Qed.

(** X24. A client that subscribes with [jobProgress] after some messages
    were relayed receives none of them: it receives exactly the later
    events, in order, all of them without a job id or with an empty one,
    those of its job otherwise. *)
Theorem new_subscriber_receives_later_events_only
    (jobId : option string) earlier later ps new ps' :
  (∀ p, Some p ∈ later → Gateway.jobId p ≠ "*") →
  Gateway.jobProgress_subscribe jobId
    (relay_all Gateway.startServer_listeners earlier ps) = (new, ps') →
  Gateway.received new (relay_all Gateway.startServer_listeners later ps') =
  match jobId with
  | Some j => if decide (j = EmptyString) then events later
              else filter (λ p, Gateway.jobId p = j) (events later)
  | None => events later
  end.
Proof.
  intros Hstar Hsub. rewrite jobProgress_subscribe_eq in Hsub.
  unfold Gateway.asyncIterator in Hsub. inversion Hsub as [[Hnew Hps]].
  set (ps1 := relay_all Gateway.startServer_listeners earlier ps) in *.
  set (s := {| Gateway.triggerName := subscribed_topic jobId;
               Gateway.inbox := [] |}).
  assert ((ps1 ++ [s])%list !! length ps1 = Some s) as Hi
    by (rewrite lookup_app_r by lia; by rewrite Nat.sub_diag).
  rewrite (relay_all_received later (ps1 ++ [s]) (length ps1) s Hi Hstar).
  simpl. unfold subscribed_topic. destruct jobId as [j|].
  - case_decide as Hj.
    + rewrite decide_False by done. by apply taken_by_job.
    + rewrite decide_True by (destruct (decide (j = EmptyString)); tauto).
      by apply taken_by_aggregate.
  - by apply taken_by_aggregate.
Qed.

(** X25. [pushJob] and [getQueueLength]: a push that returns has put the
    stringified job data at the head of the configured list, has left
    every other list as it was, and the length read afterwards is one
    more than before; a push that throws has changed nothing and throws
    the one fixed error. *)
Theorem pushJob_then_getQueueLength cfg up jobData r :
  match Gateway.pushJob cfg up jobData r with
  | (Ok _, r') =>
      up = true ∧
      Redis.list_at (Gateway.redisJobQueue cfg) r'
      = Gateway.JSON_stringify_JobData jobData
        :: Redis.list_at (Gateway.redisJobQueue cfg) r ∧
      (∀ key, key ≠ Gateway.redisJobQueue cfg →
              Redis.list_at key r' = Redis.list_at key r) ∧
      ∃ n, Gateway.getQueueLength cfg Gateway.answered r = Some (Ok n) ∧
           Gateway.getQueueLength cfg Gateway.answered r' = Some (Ok (S n))
  | (Err e, r') =>
      up = false ∧ r' = r ∧
      e = Gateway.Error "Failed to queue job for processing"
  end.
Proof.
  unfold Gateway.pushJob, Gateway.lPush, Gateway.getQueueLength, Gateway.lLen,
    Redis.LLEN.
  destruct up; [|done]. rewrite DispatchFacts.list_at_LPUSH.
  split; [done|]. split; [done|]. split; [|by eexists].
  intros key Hkey. by apply DispatchFacts.list_at_LPUSH_ne.
Qed.

(** No sample message is an event of the job id [*]. *)
Lemma sample_messages_without_star p :
  Some p ∈ sample_messages → Gateway.jobId p ≠ "*".
Proof.
  intros Hp. unfold sample_messages in Hp.
  repeat (apply elem_of_cons in Hp as [Hp|Hp];
          [try discriminate Hp; injection Hp as ->; vm_compute; discriminate|]).
  by apply elem_of_nil in Hp.
Qed.

Lemma later_messages_without_star p :
  Some p ∈ later_messages → Gateway.jobId p ≠ "*".
Proof.
  intros Hp. unfold later_messages in Hp.
  repeat (apply elem_of_cons in Hp as [Hp|Hp];
          [try discriminate Hp; injection Hp as ->; vm_compute; discriminate|]).
  by apply elem_of_nil in Hp.
Qed.

(** X23 on the sample messages and the two subscribers of the sample
    world: the subscriber of the new job gets its event, the aggregate
    subscriber both events. *)
Lemma relay_delivers_each_event_once_in_order_witness :
  Gateway.received 1
    (relay_all Gateway.startServer_listeners sample_messages
       (Gateway.pubsub sample_world)) = [sample_progress] ∧
  Gateway.received 0
    (relay_all Gateway.startServer_listeners sample_messages
       (Gateway.pubsub sample_world)) = [sample_progress; other_progress].
Proof.
  split.
  - rewrite (proj2 (relay_delivers_each_event_once_in_order sample_messages
                      (Gateway.pubsub sample_world) 1 _ eq_refl
                      sample_messages_without_star) new_id eq_refl).
    vm_compute. reflexivity.
  - rewrite (proj1 (relay_delivers_each_event_once_in_order sample_messages
                      (Gateway.pubsub sample_world) 0 _ eq_refl
                      sample_messages_without_star) eq_refl).
    reflexivity.
Defined.

(** X24 on a client that subscribes to the new job after the sample
    messages were relayed: of the later messages it gets the event of
    the new job, and nothing of the earlier ones. *)
Lemma new_subscriber_receives_later_events_only_witness :
  Gateway.received
    (Gateway.jobProgress_subscribe (Some new_id)
       (relay_all Gateway.startServer_listeners sample_messages
          (Gateway.pubsub sample_world))).1
    (relay_all Gateway.startServer_listeners later_messages
       (Gateway.jobProgress_subscribe (Some new_id)
          (relay_all Gateway.startServer_listeners sample_messages
             (Gateway.pubsub sample_world))).2)
  = [sample_progress].
Proof.
  rewrite (new_subscriber_receives_later_events_only (Some new_id)
             sample_messages later_messages (Gateway.pubsub sample_world) _ _
             later_messages_without_star (surjective_pairing _)).
  vm_compute. reflexivity.
Defined.

End RelayExtras.
